(** * rawhdd: a shallow embedding of rawhdd.c

    rawhdd images a hard disk under DOS through the BIOS (int 13h) into a
    destination file.  The program is written for a 16-bit real-mode C
    compiler (far pointers, dos.h, bios.h): [int] and [unsigned int] are
    16 bits wide, which is also what the layout of [struct hddparam]
    requires for it to match the BIOS fixed-disk parameter table.

    Integers are modelled as [Z] with the wrap-around written out, the
    program's globals and everything it touches (track buffer, destination
    file, console, log) as an explicit state, and the platform (BIOS, disk,
    destination volume, keyboard, heap) as a record of oracles.

    Not modelled: the Ctrl-Break handler [c_break], which the BIOS may call
    at any moment (the runs described here are those in which Ctrl-Break is
    not pressed), the text of the messages, and the time stamps in the
    log. *)

From Stdlib Require Import ZArith List Lia Bool String Ascii.
From Stdlib Require Import Init.Byte.
Import ListNotations.
Local Open Scope Z_scope.

(** ** Machine integers *)

Module Mach.

(** [unsigned int]: 16 bits. *)
Definition u16 (z : Z) : Z := z mod 65536.

(** [int]: 16 bits, two's complement. *)
Definition i16 (z : Z) : Z := (z + 32768) mod 65536 - 32768.

(** [unsigned char]. *)
Definition u8 (z : Z) : Z := z mod 256.

End Mach.
Import Mach.

(** ** Data of the program *)

(** [struct hddparam], the BIOS table. *)
Record hddparam := mkHddparam {
  cyls : Z;
  tbl_heads : Z;
  rwcc : Z;
  wpcc : Z;
  ECCl : Z;
  ctrb : Z
}.

(** [struct myopts]; the fields [tracks], [heads], [sectors], [drive] carry
    the prefix [opt_] since the globals own the plain names. *)
Record myopts := mkOpts {
  opt_tracks : Z;
  opt_heads : Z;
  opt_sectors : Z;
  opt_drive : Z;
  ts : Z;
  hs : Z;
  ss : Z;
  ds : Z
}.

(** The byte registers of [union REGS] that the program reads after
    int 13h, function 8. *)
Record REGS := mkREGS {
  r_ah : Z;
  r_cl : Z;
  r_ch : Z;
  r_dh : Z
}.

(** Lines written to rawhdd.log (the time stamps of the two banners are not
    modelled).  The numbers are the arguments handed to [fprintf]. *)
Inductive logline :=
| LogStarted (fn : string)
| LogDrive (d c h s : Z)
| LogTrackOK (track head : Z)
| LogOK (track head sector : Z)
| LogERR (track head sector : Z)
| LogFinished (fn : string).

(** Messages on stdout and stderr. *)
Inductive msg :=
| MUsage
| MChecking
| MErrDiskInfo
| MWarnCyls (table_cyls int13_cyls : Z)
| MWarnHeads (table_heads int13_heads : Z)
| MUnableInt13
| MCantContinue
| MCHS (c h s : Z)
| MMallocFailed
| MCmdlineGeometry
| MWillRead (c h s : Z)
| MWillWrite (fn : string)
| MMismatch
| MPressEnter
| MErrCreate
| MTrackOK (track head : Z)
| MStar
| MDot
| MErrCHS (track head sector : Z)
| MWriteFailed
| MDone.

(** What the program does to the outside world, one event per call. *)
Inductive event :=
| EvInt13_8 (drive : Z) (ah : Z)
| EvBiosdisk (cmd drive head track sector nsects : Z) (status : Z)
| EvMalloc (size : Z) (ok : bool)
| EvFree
| EvGetch (key : Z)
| EvOpen (fn : string) (ok : bool)
| EvWrite (len : Z) (ret : Z)
| EvClose
| EvFopenLog
| EvFcloseLog
| EvLog (l : logline)
| EvStdout (m : msg)
| EvStderr (m : msg).

(** The platform.  Every answer may depend on the history of events so far
    (newest first), so a sector can fail now and succeed on a later try. *)
Record platform := mkPlatform {
  vect41 : hddparam;                     (* table behind interrupt vector 0x41 *)
  vect46 : hddparam;                     (* table behind interrupt vector 0x46 *)
  int13h_8 : Z -> REGS;                  (* int 13h, AH=8, by drive *)
  disk : Z -> Z -> Z -> Z -> nat -> byte;  (* drive, track, head, sector, offset *)
  bios_status : list event -> Z -> Z -> Z -> Z -> Z -> Z -> Z;
  bios_junk : list event -> list byte;   (* what a failed read leaves in the buffer *)
  sink_room : list event -> Z;           (* bytes the destination still takes; < 0: I/O error *)
  malloc_ok : Z -> bool;
  heap0 : nat -> byte;                   (* memory as malloc hands it out *)
  open_ok : string -> bool;
  getch_key : Z
}.

(** The globals of rawhdd.c together with the memory behind [buf], the
    contents of the destination file and the trace of events
    (newest first). *)
Record state := mkState {
  sectors : Z;
  tracks : Z;
  heads : Z;
  drive : Z;
  trackbytes : Z;
  buf : nat -> byte;
  dst : list byte;
  trace : list event
}.

Definition set_sectors (v : Z) (s : state) : state :=
  mkState v (tracks s) (heads s) (drive s) (trackbytes s) (buf s) (dst s) (trace s).
Definition set_tracks (v : Z) (s : state) : state :=
  mkState (sectors s) v (heads s) (drive s) (trackbytes s) (buf s) (dst s) (trace s).
Definition set_heads (v : Z) (s : state) : state :=
  mkState (sectors s) (tracks s) v (drive s) (trackbytes s) (buf s) (dst s) (trace s).
Definition set_drive (v : Z) (s : state) : state :=
  mkState (sectors s) (tracks s) (heads s) v (trackbytes s) (buf s) (dst s) (trace s).
Definition set_trackbytes (v : Z) (s : state) : state :=
  mkState (sectors s) (tracks s) (heads s) (drive s) v (buf s) (dst s) (trace s).
Definition set_buf (b : nat -> byte) (s : state) : state :=
  mkState (sectors s) (tracks s) (heads s) (drive s) (trackbytes s) b (dst s) (trace s).
Definition append_dst (l : list byte) (s : state) : state :=
  mkState (sectors s) (tracks s) (heads s) (drive s) (trackbytes s) (buf s)
          (dst s ++ l) (trace s).
Definition emit (e : event) (s : state) : state :=
  mkState (sectors s) (tracks s) (heads s) (drive s) (trackbytes s) (buf s)
          (dst s) (e :: trace s).

Definition printf (m : msg) : state -> state := emit (EvStdout m).
Definition eprintf (m : msg) : state -> state := emit (EvStderr m).
Definition flog (l : logline) : state -> state := emit (EvLog l).

(** The state at program start: the globals are zero-initialised. *)
Definition state0 (P : platform) : state :=
  mkState 0 0 0 0 0 (heap0 P) [] [].

(** ** hddinfo *)

Section Hddinfo.

Variable P : platform.

(** The three assignments at lines 110-112, as C parses them:
    [+] binds tighter than [<<], which binds tighter than [&], which binds
    tighter than [|]; so line 111 is [(1 + ((cl & 0xc0) << 2)) | ch]. *)
Definition int13_sectors (r : REGS) : Z := Z.land (u8 (r_cl r)) 63.
Definition int13_tracks (r : REGS) : Z :=
  u16 (Z.lor (1 + Z.shiftl (Z.land (u8 (r_cl r)) 192) 2) (u8 (r_ch r))).
Definition int13_heads (r : REGS) : Z := u16 (1 + u8 (r_dh r)).

(** The table [hdp] points to. *)
Definition hdp (s : state) : hddparam :=
  if drive s =? 128 then vect41 P else vect46 P.
Definition hdp_cyls (s : state) : Z := u16 (cyls (hdp s)).
Definition hdp_heads (s : state) : Z := u8 (tbl_heads (hdp s)).

(** [cdif=hdp->cyls-tracks]: an unsigned difference stored in an [int]. *)
Definition cdif (s : state) : Z := i16 (u16 (hdp_cyls s - tracks s)).

Definition hddinfo (s : state) : Z * state :=
  let regs := int13h_8 P (drive s) in
  let s := emit (EvInt13_8 (drive s) (u8 (r_ah regs))) s in
  if negb (u8 (r_ah regs) =? 0) then
    (1, eprintf MErrDiskInfo s)
  else
    let s := set_sectors (int13_sectors regs) s in
    let s := set_tracks (int13_tracks regs) s in
    let s := set_heads (int13_heads regs) s in
    let d := cdif s in
    let '(rv, s) :=
      if 1 <? d
      then (1, eprintf (MWarnCyls (hdp_cyls s) (tracks s)) s)
      else (0, s) in
    let s := set_tracks (hdp_cyls s) s in
    if negb (heads s =? hdp_heads s) then
      let s := eprintf (MWarnHeads (hdp_heads s) (heads s)) s in
      let s := set_heads (hdp_heads s) s in
      (1, s)
    else (rv, s).

End Hddinfo.

(** ** The BIOS disk service and the destination file *)

(** Memory behind [buf]: offset to byte.  A transfer stores at offset 0;
    [write] reads from offset 0. *)
Definition poke (l : list byte) (m : nat -> byte) : nat -> byte :=
  fun i => nth i l (m i).
Definition peek (n : nat) (m : nat -> byte) : list byte :=
  map m (seq 0 n).

Section Engine.

Variable P : platform.

(** The 512 bytes of one sector. *)
Definition sector_bytes (drv track head sector : Z) : list byte :=
  map (disk P drv track head sector) (seq 0 512).

(** The data of [nsects] consecutive sectors of one track. *)
Definition read_data (drv track head sector nsects : Z) : list byte :=
  flat_map (fun k => sector_bytes drv track head (sector + Z.of_nat k))
           (seq 0 (Z.to_nat nsects)).

(** [biosdisk(cmd,drive,head,track,sector,nsects,buffer)].  Command 2
    reads: on status 0 the sectors asked for are in the buffer, otherwise
    the buffer holds whatever the controller left there.  Command 0
    resets the controller and touches no buffer. *)
Definition biosdisk (cmd drv head track sector nsects : Z) (s : state)
  : Z * state :=
  let st := bios_status P (trace s) cmd drv head track sector nsects in
  let s := emit (EvBiosdisk cmd drv head track sector nsects st) s in
  if cmd =? 2 then
    if st =? 0
    then (st, set_buf (poke (read_data drv track head sector nsects) (buf s)) s)
    else (st, set_buf (poke (bios_junk P (trace s)) (buf s)) s)
  else (st, s).

(** [write(f,buf,len)]: the destination takes what it has room for; the
    result is the number of bytes written as an [int], or -1. *)
Definition write (len : Z) (s : state) : Z * state :=
  let room := sink_room P (trace s) in
  if room <? 0 then (-1, emit (EvWrite len (-1)) s)
  else
    let k := Z.min len room in
    (i16 k, emit (EvWrite len (i16 k)) (append_dst (peek (Z.to_nat k) (buf s)) s)).

(** ** copy_track *)

Definition copy_track (head track : Z) (s : state) : Z * state :=
  let '(st, s) := biosdisk 2 (drive s) head track 1 (sectors s) s in
  if negb (st =? 0) then (1, s)
  else
    let '(w, s) := write (trackbytes s) s in
    if negb (u16 w =? trackbytes s) then (-1, s)
    else (0, printf (MTrackOK track head) s).

(** ** copy_sects *)

(** The [while(retr>0 && res!=0)] loop. *)
Fixpoint retry (retr : nat) (res : Z) (head track i : Z) (s : state)
  : Z * state :=
  match retr with
  | O => (res, s)
  | S retr' =>
      if res =? 0 then (res, s)
      else
        let s := printf MStar s in
        let '(_, s) := biosdisk 0 (drive s) 0 0 0 1 s in
        let '(res, s) := biosdisk 2 (drive s) head track i 1 s in
        retry retr' res head track i s
  end.

(** Lines 148-177: read sector [i], retrying, and log the outcome. *)
Definition read_sect (head track i : Z) (s : state) : state :=
  let '(st, s) := biosdisk 2 (drive s) head track i 1 s in
  if negb (st =? 0) then
    let '(res, s) := retry 10 1 head track i s in
    if negb (res =? 0) then
      flog (LogERR track head i) (printf (MErrCHS track head i) s)
    else
      printf MDot (flog (LogOK track head i) s)
  else
    printf MDot (flog (LogOK track head i) s).

(** The body of the [for] loop: lines 148-179, up to the result of
    [write]. *)
Definition sect_body (head track i : Z) (s : state) : Z * state :=
  write 512 (read_sect head track i s).

(** The [for(i=1;i<=sectors;i++)] loop.  [i] is an [int] compared with
    the [unsigned int sectors], so the comparison is unsigned; the
    increment wraps.  The loop has no bound of its own (with
    [sectors = 65535] it only ends on a write error), hence the fuel:
    the result [None] means that the loop was still running when the fuel
    ran out, and the state is the one reached by then. *)
Fixpoint sects_loop (fuel : nat) (i : Z) (head track : Z) (s : state)
  : option Z * state :=
  match fuel with
  | O => (None, s)
  | S fuel' =>
      if u16 i <=? sectors s then
        let '(w, s) := sect_body head track i s in
        if negb (w =? 512) then (Some (-1), s)
        else sects_loop fuel' (i16 (i + 1)) head track s
      else (Some 0, s)
  end.

Definition copy_sects (fuel : nat) (head track : Z) (s : state)
  : option Z * state :=
  sects_loop fuel 1 head track s.

(** ** setopt and the argument loop of main *)

Definition is_space (c : ascii) : bool :=
  let n := Z.of_nat (nat_of_ascii c) in
  (n =? 32) || ((9 <=? n) && (n <=? 13)).

Definition digit_of (c : ascii) : option Z :=
  let n := Z.of_nat (nat_of_ascii c) in
  if (48 <=? n) && (n <=? 57) then Some (n - 48) else None.

Fixpoint atoi_digits (acc : Z) (a : string) : Z :=
  match a with
  | EmptyString => acc
  | String c r =>
      match digit_of c with
      | Some d => atoi_digits (10 * acc + d) r
      | None => acc
      end
  end.

Fixpoint skip_spaces (a : string) : string :=
  match a with
  | String c r => if is_space c then skip_spaces r else a
  | EmptyString => a
  end.

(** The C library's [atoi]: white space, an optional sign, decimal
    digits; the result is an [int]. *)
Definition atoi (a : string) : Z :=
  match skip_spaces a with
  | String "-"%char r => i16 (- atoi_digits 0 r)
  | String "+"%char r => i16 (atoi_digits 0 r)
  | r => i16 (atoi_digits 0 r)
  end.

(** [arg+3]. *)
Definition from3 (arg : string) : string :=
  substring 3 (String.length arg - 3) arg.

Definition setopt (arg : string) (opt : myopts) : Z * myopts :=
  match arg with
  | EmptyString => (-1, opt)
  | String c0 _ =>
      if negb (Ascii.eqb c0 "-") then (1, opt)
      else if (String.length arg <? 4)%nat then (-1, opt)
      else
        match String.get 2 arg, String.get 1 arg with
        | Some c2, Some c1 =>
            if negb (Ascii.eqb c2 "=") then (-1, opt)
            else if Ascii.eqb c1 "c" then
              (0, mkOpts (atoi (from3 arg)) (opt_heads opt) (opt_sectors opt)
                         (opt_drive opt) 1 (hs opt) (ss opt) (ds opt))
            else if Ascii.eqb c1 "h" then
              (0, mkOpts (opt_tracks opt) (atoi (from3 arg)) (opt_sectors opt)
                         (opt_drive opt) (ts opt) 1 (ss opt) (ds opt))
            else if Ascii.eqb c1 "s" then
              (0, mkOpts (opt_tracks opt) (opt_heads opt) (atoi (from3 arg))
                         (opt_drive opt) (ts opt) (hs opt) 1 (ds opt))
            else if Ascii.eqb c1 "d" then
              (0, mkOpts (opt_tracks opt) (opt_heads opt) (opt_sectors opt)
                         (i16 (128 + atoi (from3 arg))) (ts opt) (hs opt) (ss opt) 1)
            else (-1, opt)
        | _, _ => (-1, opt)
        end
  end.

(** The loop over [argv[1..argc-1]]; [None] is [print_usage(); exit(1)]. *)
Fixpoint parse_args (argv : list string) (opts : myopts) (fn : option string)
  : option (myopts * option string) :=
  match argv with
  | [] => Some (opts, fn)
  | a :: rest =>
      let '(res, opts) := setopt a opts in
      if res <? 0 then None
      else if res =? 1 then
        match fn with
        | None => parse_args rest opts (Some a)
        | Some _ => None
        end
      else parse_args rest opts fn
  end.

(** ** main *)

(** One iteration of the double loop, lines 329-345.  The boolean says
    whether control went to [fail]; [None] as in [sects_loop]. *)
Definition copy_unit (fuel : nat) (head track : Z) (s : state)
  : option bool * state :=
  let '(res, s) := copy_track head track s in
  let s := if res =? 0 then flog (LogTrackOK track head) s else s in
  if 0 <? res then
    match copy_sects fuel head track s with
    | (None, s) => (None, s)
    | (Some res, s) =>
        if res <? 0 then (Some true, printf MWriteFailed (emit EvClose s))
        else (Some false, s)
    end
  else if res <? 0 then (Some true, printf MWriteFailed s)
  else (Some false, s).

(** [for(head=...;head<heads;head++)], with [n] iterations left. *)
Fixpoint head_loop (fuel : nat) (n : nat) (head track : Z) (s : state)
  : option bool * state :=
  match n with
  | O => (Some false, s)
  | S n' =>
      match copy_unit fuel head track s with
      | (Some false, s) => head_loop fuel n' (head + 1) track s
      | stop => stop
      end
  end.

(** [for(track=...;track<tracks;track++)], with [n] iterations left. *)
Fixpoint track_loop (fuel : nat) (n : nat) (track : Z) (s : state)
  : option bool * state :=
  match n with
  | O => (Some false, s)
  | S n' =>
      match head_loop fuel (Z.to_nat (heads s)) 0 track s with
      | (Some false, s) => track_loop fuel n' (track + 1) s
      | stop => stop
      end
  end.

(** Lines 327-346. *)
Definition image_loop (fuel : nat) (s : state) : option bool * state :=
  track_loop fuel (Z.to_nat (tracks s)) 0 s.

Definition opts0 : myopts := mkOpts 0 0 0 0 0 0 0 0.

(** The overrides of lines 274-279. *)
Definition apply_overrides (opts : myopts) (s : state) : state :=
  let s := if ss opts =? 0 then s else set_sectors (u16 (opt_sectors opts)) s in
  let s := if hs opts =? 0 then s else set_heads (u16 (opt_heads opts)) s in
  if ts opts =? 0 then s else set_tracks (u16 (opt_tracks opts)) s.

(** Lines 309-359: from [open] on.  The log is taken to open. *)
Definition run_copy (fuel : nat) (fn : string) (s : state)
  : option Z * state :=
  let ok := open_ok P fn in
  let s := emit (EvOpen fn ok) s in
  if negb ok then
    (Some 1, emit EvClose (emit EvFree (eprintf MErrCreate s)))
  else
    let s := emit EvFopenLog s in
    let s := flog (LogStarted fn) s in
    let s := flog (LogDrive (drive s - 128) (tracks s) (heads s) (sectors s)) s in
    match image_loop fuel s with
    | (None, s) => (None, s)
    | (Some true, s) =>
        (Some 1, emit EvFcloseLog (emit EvClose (emit EvFree s)))
    | (Some false, s) =>
        let s := printf MDone s in
        let s := emit EvClose s in
        let s := flog (LogFinished fn) s in
        let s := emit EvFcloseLog s in
        (Some 0, emit EvFree s)
    end.

(** The state in which main calls hddinfo. *)
Definition before_hddinfo (opts : myopts) : state :=
  let s := set_drive 128 (state0 P) in
  let s := if ds opts =? 0 then s else set_drive (u8 (opt_drive opts)) s in
  printf MChecking s.

(** Lines 268-359. *)
Definition main_body (fuel : nat) (opts : myopts) (fn : string)
  : option Z * state :=
  let '(rhi, s) := hddinfo P (before_hddinfo opts) in
  if rhi <? 0 then (Some 1, eprintf MUnableInt13 s)
  else
    let s := apply_overrides opts s in
    if (tracks s =? 0) || (heads s =? 0) || (sectors s =? 0) then
      (Some 1, printf (MCHS (tracks s) (heads s) (sectors s))
                      (printf MCantContinue s))
    else
      let s := set_trackbytes (u16 (512 * sectors s)) s in
      let ok := malloc_ok P (trackbytes s) in
      let s := emit (EvMalloc (trackbytes s) ok) s in
      if negb ok then (Some 1, printf MMallocFailed s)
      else
        let s :=
          if negb (ts opts =? 0) || negb (hs opts =? 0) || negb (ss opts =? 0)
          then printf MCmdlineGeometry s else s in
        let s := printf (MWillRead (tracks s) (heads s) (sectors s)) s in
        let s := printf (MWillWrite fn) s in
        let s := if rhi =? 0 then s else printf MMismatch s in
        let s := printf MPressEnter s in
        let s := emit (EvGetch (getch_key P)) s in
        if negb (getch_key P =? 13) then (Some 2, emit EvFree s)
        else run_copy fuel fn s.

(** [main], on [argv[1..]].  The result is the exit status and the final
    state; the status [None] is a run that is still inside [copy_sects]
    when the fuel runs out.  Ctrl-Break is not pressed. *)
Definition main (fuel : nat) (argv : list string) : option Z * state :=
  match parse_args argv opts0 None with
  | None => (Some 1, printf MUsage (set_drive 128 (state0 P)))
  | Some (_, None) => (Some 1, printf MUsage (set_drive 128 (state0 P)))
  | Some (opts, Some fn) => main_body fuel opts fn
  end.

End Engine.

(** ** The specification's reading of the int 13h registers *)

(** The cylinder number that int 13h,8 returns split over two registers:
    the top two bits of CL are bits 8-9, CH is bits 0-7. *)
Definition spec_assembled (r : REGS) : Z :=
  Z.lor (Z.shiftl (Z.land (u8 (r_cl r)) 192) 2) (u8 (r_ch r)).

(** "cylinder count = 1 + a value assembled from two split byte fields". *)
Definition spec_int13_cyls (r : REGS) : Z := 1 + spec_assembled r.

(** ** Observations on a trace *)

Definition is_read_of (head track sector : Z) (e : event) : bool :=
  match e with
  | EvBiosdisk 2 _ h t sc 1 _ => (h =? head) && (t =? track) && (sc =? sector)
  | _ => false
  end.

Definition is_reset (e : event) : bool :=
  match e with
  | EvBiosdisk 0 _ _ _ _ _ _ => true
  | _ => false
  end.

Definition is_err_line (track head sector : Z) (e : event) : bool :=
  match e with
  | EvLog (LogERR t h sc) => (t =? track) && (h =? head) && (sc =? sector)
  | _ => false
  end.

Definition is_write (e : event) : bool :=
  match e with
  | EvWrite _ _ => true
  | _ => false
  end.

(** Events that touch the source disk or the destination file. *)
Definition is_io (e : event) : bool :=
  match e with
  | EvBiosdisk _ _ _ _ _ _ _ | EvWrite _ _ | EvOpen _ _ => true
  | _ => false
  end.

(** Events of the copy itself: disk calls, writes, and log lines. *)
Definition is_copy_step (e : event) : bool :=
  match e with
  | EvBiosdisk _ _ _ _ _ _ _ | EvWrite _ _ | EvLog _ => true
  | _ => false
  end.

Definition count (f : event -> bool) (l : list event) : nat :=
  List.length (filter f l).

(** ** Concrete platforms *)

Definition byte_of (z : Z) : byte :=
  match Byte.of_N (Z.to_N (z mod 256)) with
  | Some b => b
  | None => x00
  end.

(** A disk whose every byte tells where it lies. *)
Definition demo_disk (drv track head sector : Z) (off : nat) : byte :=
  byte_of (track * 64 + head * 16 + sector + Z.of_nat off).

Definition demo_platform (tbl : hddparam) (regs : REGS)
    (status : list event -> Z -> Z -> Z -> Z -> Z -> Z -> Z)
    (room : list event -> Z) : platform :=
  mkPlatform tbl tbl (fun _ => regs) demo_disk status
             (fun _ => [xff; xff]) room (fun _ => true) (fun _ => x00)
             (fun _ => true) 13.

Definition all_ok : list event -> Z -> Z -> Z -> Z -> Z -> Z -> Z :=
  fun _ _ _ _ _ _ _ => 0.
Definition plenty : list event -> Z := fun _ => 65535.

(** Every read fails (status 4, sector not found); resets succeed. *)
Definition reads_fail : list event -> Z -> Z -> Z -> Z -> Z -> Z -> Z :=
  fun _ cmd _ _ _ _ _ => if cmd =? 2 then 4 else 0.

(** Table: 100 cylinders, 2 heads.  int 13h,8: last cylinder 99 (CH = 0x63),
    17 sectors (CL = 0x11), last head 1. *)
Definition tbl_100_2 : hddparam := mkHddparam 100 2 0 0 0 0.
Definition regs_99_1_17 : REGS := mkREGS 0 17 99 1.

(** Table: 50 cylinders, 2 heads.  int 13h,8: last cylinder 100, 17 sectors,
    last head 1. *)
Definition tbl_50_2 : hddparam := mkHddparam 50 2 0 0 0 0.
Definition regs_100_1_17 : REGS := mkREGS 0 17 100 1.

(** int 13h,8 fails (AH = 1). *)
Definition regs_failed : REGS := mkREGS 1 0 0 0.

(** All values of a byte register. *)
Definition bytes256 : list Z := map Z.of_nat (seq 0 256).

(** What line 111 computes, in closed form: the "1 +" lands in bit 0 of the
    value that is then or-ed with CH. *)
Definition tracks_closed_form (cl ch : Z) : bool :=
  int13_tracks (mkREGS 0 cl ch 0)
  =? Z.shiftl (Z.land cl 192) 2 + Z.lor ch 1.

Definition tracks_in_range (cl ch : Z) : bool :=
  let t := int13_tracks (mkREGS 0 cl ch 0) in (1 <=? t) && (t <? 1024).

(** Line 111 against the specification's formula, by parity of CH. *)
Definition tracks_parity (cl ch : Z) : bool :=
  let r := mkREGS 0 cl ch 0 in
  if Z.even ch
  then int13_tracks r =? spec_int13_cyls r
  else int13_tracks r =? spec_int13_cyls r - 1.

(** The drive is selected, nothing else has happened: the state in which
    main calls hddinfo when no drive switch is given. *)
Definition at_start (P : platform) : state := set_drive 128 (state0 P).

Definition P_100_99 : platform := demo_platform tbl_100_2 regs_99_1_17 all_ok plenty.
Definition P_50_101 : platform := demo_platform tbl_50_2 regs_100_1_17 all_ok plenty.

(** The warnings hddinfo prints, newest first. *)
Definition hddinfo_warnings (P : platform) (s : state) : list event :=
  let r := int13h_8 P (drive s) in
  (if int13_heads r =? hdp_heads P s then []
   else [EvStderr (MWarnHeads (hdp_heads P s) (int13_heads r))]) ++
  (if 1 <? i16 (u16 (hdp_cyls P s - int13_tracks r))
   then [EvStderr (MWarnCyls (hdp_cyls P s) (int13_tracks r))] else []).

(** A [write] that reported an error or wrote less than it was asked to. *)
Definition write_failed (e : event) : bool :=
  match e with
  | EvWrite len ret => (ret =? -1) || negb (u16 ret =? len)
  | _ => false
  end.

Definition is_log (e : event) : bool :=
  match e with
  | EvLog _ => true
  | _ => false
  end.

(** [n] retries of sector [i], oldest first: each one is the star on the
    console, the controller reset, and the read that failed again. *)
Inductive retry_shape (drv head track i : Z) : nat -> list event -> Prop :=
| retry_shape_O : retry_shape drv head track i O []
| retry_shape_S n st_reset st_read rest :
    st_read <> 0 ->
    retry_shape drv head track i n rest ->
    retry_shape drv head track i (S n)
      (EvStdout MStar :: EvBiosdisk 0 drv 0 0 0 1 st_reset
         :: EvBiosdisk 2 drv head track i 1 st_read :: rest).

(** Drive 0x80 selected, geometry 1 x 1 x 2, buffer allocated; every read
    fails. *)
Definition P_unreadable : platform :=
  demo_platform tbl_100_2 regs_99_1_17 reads_fail plenty.
Definition s_1_1_2 (P : platform) : state :=
  mkState 2 1 1 128 1024 (heap0 P) [] [].

(** The globals a step leaves as they were. *)
Definition same_globals (s s' : state) : Prop :=
  sectors s' = sectors s /\ tracks s' = tracks s /\ heads s' = heads s /\
  drive s' = drive s /\ trackbytes s' = trackbytes s.

(** Events (newest first) among which no write failed. *)
Definition good (evs : list event) : Prop :=
  Forall (fun e => write_failed e = false) evs.

(** Events (newest first) with one failed write, after which the program
    only said so and closed its files. *)
Definition stopped (evs : list event) : Prop :=
  exists later len ret earlier,
    evs = later ++ EvWrite len ret :: earlier /\
    write_failed (EvWrite len ret) = true /\
    good earlier /\
    Forall (fun e => is_copy_step e = false) later /\
    In (EvStdout MWriteFailed) later.

(** The destination takes 600 bytes and no more. *)
Definition room_600 : list event -> Z :=
  fun hist => 600 - 512 * Z.of_nat (count is_write hist).
Definition P_full : platform :=
  demo_platform tbl_100_2 regs_99_1_17 reads_fail room_600.

(** What one pass through the double loop, or a run of passes, leaves
    behind: either it went to [fail] on a failed write, or no write failed. *)
Definition unit_outcome (s : state) (r : option bool * state) : Prop :=
  same_globals s (snd r) /\
  exists evs,
    trace (snd r) = evs ++ trace s /\
    ((fst r = Some true /\ stopped evs) \/
     ((fst r = Some false \/ fst r = None) /\ good evs)).

(** The destination takes 600 bytes; all reads succeed. *)
Definition P_small_room : platform :=
  demo_platform tbl_100_2 regs_99_1_17 all_ok (fun _ => 600).

(** int 13h,8 fails; reads and writes all succeed. *)
Definition P_query_fails : platform :=
  demo_platform tbl_100_2 regs_failed all_ok plenty.

Definition is_unable_msg (e : event) : bool :=
  match e with
  | EvStderr MUnableInt13 => true
  | _ => false
  end.

Definition is_open (e : event) : bool :=
  match e with
  | EvOpen _ _ => true
  | _ => false
  end.

Definition is_disk_info_error (e : event) : bool :=
  match e with
  | EvStderr MErrDiskInfo => true
  | _ => false
  end.

(** Command lines. *)
Definition argv_2_2_3 : list string :=
  ["-c=2"; "-h=2"; "-s=3"; "out.img"]%string.
Definition argv_1_1_129 : list string :=
  ["-c=1"; "-h=1"; "-s=129"; "out.img"]%string.
Definition argv_2_1_129 : list string :=
  ["-c=2"; "-h=1"; "-s=129"; "out.img"]%string.
Definition argv_1_2_129 : list string :=
  ["-c=1"; "-h=2"; "-s=129"; "out.img"]%string.

(** The size of the destination file. *)
Definition size (s : state) : Z := Z.of_nat (List.length (dst s)).

(** a, a+1, ..., a+n-1. *)
Fixpoint count_from (a : Z) (n : nat) : list Z :=
  match n with
  | O => []
  | S n' => a :: count_from (a + 1) n'
  end.

(** 0, 1, ..., n-1. *)
Definition upto (n : Z) : list Z := count_from 0 (Z.to_nat n).

(** The image of a disk: all sectors in (cylinder, head, sector) order. *)
Definition image (P : platform) (drv ntracks nheads nsects : Z) : list byte :=
  flat_map (fun t => flat_map (fun h => read_data P drv t h 1 nsects) (upto nheads))
           (upto ntracks).

(** The states in which the copy loop runs on drive [drv] with [nsects]
    sectors per track and a buffer of [tb] bytes. *)
Definition set_up_for (drv nsects tb : Z) (s : state) : Prop :=
  drive s = drv /\ sectors s = nsects /\ trackbytes s = tb.

(** Table: 50 cylinders, 4 heads.  int 13h,8: last cylinder 49, 17 sectors,
    last head 1. *)
Definition P_heads_differ : platform :=
  demo_platform (mkHddparam 50 4 0 0 0 0) (mkREGS 0 17 49 1) all_ok plenty.

(** * Proofs *)

(** ** Properties of hddinfo *)

Lemma u8_range z : 0 <= u8 z < 256.
Proof. unfold u8. apply Z.mod_pos_bound. lia. Qed.

Lemma u16_range z : 0 <= u16 z < 65536.
Proof. unfold u16. apply Z.mod_pos_bound. lia. Qed.

Lemma u16_small z : 0 <= z < 65536 -> u16 z = z.
Proof. unfold u16. intros. apply Z.mod_small. lia. Qed.

Lemma i16_small z : -32768 <= z < 32768 -> i16 z = z.
Proof. unfold i16. intros. rewrite Z.mod_small; lia. Qed.

Lemma u16_i16 z : u16 (i16 z) = u16 z.
Proof.
  unfold u16, i16.
  rewrite Zminus_mod_idemp_l. f_equal. lia.
Qed.

(** The sector count is the low six bits of CL. *)
Lemma int13_sectors_low6 r : int13_sectors r = u8 (r_cl r) mod 64.
Proof. unfold int13_sectors. change 63 with (Z.ones 6). now rewrite Z.land_ones. Qed.

Lemma int13_sectors_range r : 0 <= int13_sectors r < 64.
Proof. rewrite int13_sectors_low6. apply Z.mod_pos_bound. lia. Qed.

(** The head count is one more than DH. *)
Lemma int13_heads_succ r : int13_heads r = 1 + u8 (r_dh r).
Proof. unfold int13_heads. apply u16_small. pose proof (u8_range (r_dh r)). lia. Qed.

Lemma u8_idem z : u8 (u8 z) = u8 z.
Proof. unfold u8. apply Z.mod_mod. lia. Qed.

Lemma in_bytes256 z : In (u8 z) bytes256.
Proof.
  unfold bytes256. apply in_map_iff. exists (Z.to_nat (u8 z)).
  pose proof (u8_range z). split; [lia|]. apply in_seq. lia.
Qed.

Lemma tracks_closed_form_all :
  forallb (fun cl => forallb (tracks_closed_form cl) bytes256) bytes256 = true.
Proof. vm_compute. reflexivity. Qed.

(** Line 111 yields [((CL & 0xc0) << 2) + (CH | 1)]. *)
Lemma int13_tracks_closed r :
  int13_tracks r = Z.shiftl (Z.land (u8 (r_cl r)) 192) 2 + Z.lor (u8 (r_ch r)) 1.
Proof.
  pose proof tracks_closed_form_all as H.
  rewrite forallb_forall in H. specialize (H _ (in_bytes256 (r_cl r))).
  rewrite forallb_forall in H. specialize (H _ (in_bytes256 (r_ch r))).
  unfold tracks_closed_form in H. apply Z.eqb_eq in H.
  unfold int13_tracks in *. cbn [r_cl r_ch] in H. rewrite !u8_idem in H. exact H.
Qed.

Lemma tracks_parity_all :
  forallb (fun cl => forallb (tracks_parity cl) bytes256) bytes256 = true.
Proof. vm_compute. reflexivity. Qed.

Lemma tracks_in_range_all :
  forallb (fun cl => forallb (tracks_in_range cl) bytes256) bytes256 = true.
Proof. vm_compute. reflexivity. Qed.

Lemma int13_tracks_range r : 1 <= int13_tracks r < 1024.
Proof.
  pose proof tracks_in_range_all as H.
  rewrite forallb_forall in H. specialize (H _ (in_bytes256 (r_cl r))).
  rewrite forallb_forall in H. specialize (H _ (in_bytes256 (r_ch r))).
  unfold tracks_in_range in H. apply andb_true_iff in H. destruct H as [H1 H2].
  apply Z.leb_le in H1. apply Z.ltb_lt in H2.
  unfold int13_tracks in *. cbn [r_cl r_ch] in H1, H2. rewrite !u8_idem in H1, H2.
  lia.
Qed.

(** With CH even the derived count is the specification's, with CH odd it
    is one less. *)
Lemma int13_tracks_even r :
  Z.even (u8 (r_ch r)) = true -> int13_tracks r = spec_int13_cyls r.
Proof.
  intros E. pose proof (tracks_parity_all) as H.
  rewrite forallb_forall in H. specialize (H _ (in_bytes256 (r_cl r))).
  rewrite forallb_forall in H. specialize (H _ (in_bytes256 (r_ch r))).
  unfold tracks_parity in H. rewrite E in H. apply Z.eqb_eq in H.
  unfold int13_tracks, spec_int13_cyls, spec_assembled in *.
  cbn [r_cl r_ch] in H. rewrite !u8_idem in H. exact H.
Qed.

Lemma int13_tracks_odd r :
  Z.even (u8 (r_ch r)) = false -> int13_tracks r = spec_int13_cyls r - 1.
Proof.
  intros E. pose proof (tracks_parity_all) as H.
  rewrite forallb_forall in H. specialize (H _ (in_bytes256 (r_cl r))).
  rewrite forallb_forall in H. specialize (H _ (in_bytes256 (r_ch r))).
  unfold tracks_parity in H. rewrite E in H. apply Z.eqb_eq in H.
  unfold int13_tracks, spec_int13_cyls, spec_assembled in *.
  cbn [r_cl r_ch] in H. rewrite !u8_idem in H. lia.
Qed.

(** C2 (sector and head part): for every register value the derived sector
    count is the low six bits of CL and the derived head count is 1 + DH. *)
Lemma int13_sectors_heads_ok r :
  int13_sectors r = Z.land (u8 (r_cl r)) 63 /\ int13_heads r = 1 + u8 (r_dh r).
Proof. split; [reflexivity | apply int13_heads_succ]. Qed.

(** C2: with CL = 0x11, CH = 0x63 (last cylinder 99) the program derives 99
    cylinders where the specification's formula gives 100; sectors and heads
    come out as specified. *)
Theorem int13_tracks_misses_one :
  int13_tracks regs_99_1_17 = 99 /\
  spec_int13_cyls regs_99_1_17 = 100 /\
  int13_sectors regs_99_1_17 = 17 /\
  int13_heads regs_99_1_17 = 2.
Proof. repeat split; vm_compute; reflexivity. Qed.

Lemma i16_u16 z : i16 (u16 z) = i16 z.
Proof. unfold u16, i16. now rewrite Zplus_mod_idemp_l. Qed.

(** What hddinfo returns when int 13h,8 succeeded. *)
Lemma hddinfo_success P s :
  u8 (r_ah (int13h_8 P (drive s))) = 0 ->
  let r := int13h_8 P (drive s) in
  hddinfo P s =
    ((if (1 <? i16 (u16 (hdp_cyls P s - int13_tracks r)))
         || negb (int13_heads r =? hdp_heads P s) then 1 else 0),
     mkState (int13_sectors r) (hdp_cyls P s) (hdp_heads P s) (drive s)
             (trackbytes s) (buf s) (dst s)
             (hddinfo_warnings P s ++ EvInt13_8 (drive s) 0 :: trace s)).
Proof.
  intros H r. subst r. unfold hddinfo, hddinfo_warnings. rewrite H.
  set (r := int13h_8 P (drive s)).
  cbn -[int13_sectors int13_tracks int13_heads Z.ltb i16 u16].
  unfold cdif, hdp_cyls, hdp_heads, hdp.
  cbn -[int13_sectors int13_tracks int13_heads Z.ltb i16 u16].
  destruct (1 <? _) eqn:E1;
    cbn -[int13_sectors int13_tracks int13_heads Z.ltb i16 u16];
    destruct (int13_heads r =? _) eqn:E2;
    cbn -[int13_sectors int13_tracks int13_heads Z.ltb i16 u16];
    try reflexivity.
  all: apply Z.eqb_eq in E2; unfold set_tracks, eprintf, emit;
    cbn -[int13_sectors int13_tracks int13_heads Z.ltb i16 u16];
    rewrite E2; reflexivity.
Qed.

(** What hddinfo does when int 13h,8 failed: the globals stay as they
    were, and the result is 1. *)
Lemma hddinfo_failure P s :
  u8 (r_ah (int13h_8 P (drive s))) <> 0 ->
  hddinfo P s =
    (1, eprintf MErrDiskInfo
          (emit (EvInt13_8 (drive s) (u8 (r_ah (int13h_8 P (drive s))))) s)).
Proof.
  intros H. unfold hddinfo. apply Z.eqb_neq in H. rewrite H. reflexivity.
Qed.

(** C5: when the int 13h query succeeds, the geometry hddinfo leaves in the
    globals has the cylinder count and the head count of the BIOS table and
    the sector count of int 13h (the low six bits of CL); CH, DH and the top
    bits of CL do not occur in it. *)
Theorem hddinfo_table_wins P s :
  u8 (r_ah (int13h_8 P (drive s))) = 0 ->
  tracks (snd (hddinfo P s)) = hdp_cyls P s /\
  heads (snd (hddinfo P s)) = hdp_heads P s /\
  sectors (snd (hddinfo P s)) = Z.land (u8 (r_cl (int13h_8 P (drive s)))) 63.
Proof.
  intros H. rewrite (hddinfo_success P s H). cbn [snd tracks heads sectors].
  repeat split.
Qed.

Lemma hddinfo_table_wins_witness :
  tracks (snd (hddinfo P_50_101 (at_start P_50_101))) = 50 /\
  heads (snd (hddinfo P_50_101 (at_start P_50_101))) = 2 /\
  sectors (snd (hddinfo P_50_101 (at_start P_50_101))) = 17.
Proof.
  exact (hddinfo_table_wins P_50_101 (at_start P_50_101) eq_refl).
Defined.

(** The value hddinfo returns after a successful query. *)
Lemma hddinfo_flag_signed P s :
  u8 (r_ah (int13h_8 P (drive s))) = 0 ->
  let r := int13h_8 P (drive s) in
  fst (hddinfo P s) = 1 <->
    1 < i16 (u16 (hdp_cyls P s - int13_tracks r)) \/
    int13_heads r <> hdp_heads P s.
Proof.
  intros H r. rewrite (hddinfo_success P s H). fold r. cbn [fst].
  destruct (Z.ltb_spec 1 (i16 (u16 (hdp_cyls P s - int13_tracks r))));
    destruct (Z.eqb_spec (int13_heads r) (hdp_heads P s));
    cbn [orb negb]; split; intros; try discriminate; try tauto; try lia.
Qed.




(** When the table's count is below 32768 the signed difference is the
    true difference: the flag is up exactly when the table has more than one
    cylinder more than int 13h reports, or the heads differ. *)
Lemma hddinfo_flag_small_table P s :
  u8 (r_ah (int13h_8 P (drive s))) = 0 ->
  hdp_cyls P s <= 32768 ->
  let r := int13h_8 P (drive s) in
  fst (hddinfo P s) = 1 <->
    1 < hdp_cyls P s - int13_tracks r \/ int13_heads r <> hdp_heads P s.
Proof.
  intros H Hc r. pose proof (hddinfo_flag_signed P s H) as Hiff.
  cbv zeta in Hiff. fold r in Hiff.
  rewrite i16_u16, i16_small in Hiff; [exact Hiff|].
  pose proof (int13_tracks_range r). pose proof (u16_range (cyls (hdp P s))).
  unfold hdp_cyls in *. lia.
Qed.

(** ** The BIOS calls and [write] *)

Lemma i16_range z : -32768 <= i16 z < 32768.
Proof. unfold i16. pose proof (Z.mod_pos_bound (z + 32768) 65536). lia. Qed.

Lemma peek_length n m : List.length (peek n m) = n.
Proof. unfold peek. now rewrite length_map, length_seq. Qed.

Lemma count_app f l1 l2 : count f (l1 ++ l2) = (count f l1 + count f l2)%nat.
Proof. unfold count. now rewrite filter_app, length_app. Qed.

(** Each call adds one event and leaves the globals and the destination
    alone. *)
Lemma biosdisk_frame P cmd drv head track sector nsects s :
  let r := biosdisk P cmd drv head track sector nsects s in
  fst r = bios_status P (trace s) cmd drv head track sector nsects /\
  trace (snd r) = EvBiosdisk cmd drv head track sector nsects (fst r) :: trace s /\
  sectors (snd r) = sectors s /\ tracks (snd r) = tracks s /\
  heads (snd r) = heads s /\ drive (snd r) = drive s /\
  trackbytes (snd r) = trackbytes s /\ dst (snd r) = dst s.
Proof.
  unfold biosdisk. destruct (cmd =? 2); [destruct (_ =? 0)|];
    cbn; repeat split; reflexivity.
Qed.

(** The result of [write] is a count between 0 and the length asked for,
    or -1; the destination grows by that count. *)
Lemma write_frame P len s :
  0 <= len < 65535 ->
  let r := write P len s in
  trace (snd r) = EvWrite len (fst r) :: trace s /\
  sectors (snd r) = sectors s /\ tracks (snd r) = tracks s /\
  heads (snd r) = heads s /\ drive (snd r) = drive s /\
  trackbytes (snd r) = trackbytes s /\ buf (snd r) = buf s /\
  -32768 <= fst r < 32768 /\
  (u16 (fst r) = len ->
     len <= sink_room P (trace s) /\
     dst (snd r) = dst s ++ peek (Z.to_nat len) (buf s)) /\
  (len <= sink_room P (trace s) -> u16 (fst r) = len).
Proof.
  intros Hlen. unfold write.
  destruct (Z.ltb_spec (sink_room P (trace s)) 0) as [Hneg|Hpos].
  - cbn. change (u16 (-1)) with 65535.
    split; [reflexivity|]. do 6 (split; [reflexivity|]).
    split; [lia|]. split; intros; lia.
  - cbn -[i16 u16 Z.min]. rewrite u16_i16, u16_small by lia.
    split; [reflexivity|]. do 6 (split; [reflexivity|]).
    split; [apply i16_range|]. split.
    + intros H. split; [lia|].
      replace (Z.min len (sink_room P (trace s))) with len by lia. reflexivity.
    + intros H. lia.
Qed.

(** For a result in the range of an [int], comparing it with 512 as [int]
    or as [unsigned] is the same. *)
Lemma int_ne_512 w : -32768 <= w < 32768 -> (w =? 512) = (u16 w =? 512).
Proof.
  intros Hw. unfold u16.
  destruct (Z.eqb_spec w 512) as [->|Hne]; [reflexivity|].
  symmetry. apply Z.eqb_neq. intros H.
  destruct (Z_lt_le_dec w 0).
  - rewrite <- (Z.mod_add w 1 65536) in H by lia. rewrite Z.mod_small in H; lia.
  - rewrite Z.mod_small in H; lia.
Qed.

Lemma write_failed_detect len w :
  0 <= len < 65535 -> write_failed (EvWrite len w) = negb (u16 w =? len).
Proof.
  intros H. unfold write_failed.
  destruct (Z.eqb_spec w (-1)) as [->|]; [|reflexivity].
  change (u16 (-1)) with 65535. cbn [orb]. symmetry.
  apply negb_true_iff, Z.eqb_neq. lia.
Qed.

(** ** copy_sects on a sector that cannot be read *)

Lemma retry_shape_counts drv head track i n evs :
  retry_shape drv head track i n evs ->
  count (is_read_of head track i) evs = n /\
  count is_reset evs = n /\
  count is_log evs = O.
Proof.
  induction 1 as [|n st_reset st_read rest Hst _ IH].
  - repeat split.
  - destruct IH as (IH1 & IH2 & IH3). unfold count in *.
    cbn [filter is_read_of is_reset is_log].
    rewrite !Z.eqb_refl. cbn [andb List.length]. lia.
Qed.

(** As long as the reads fail, [retry] goes through all its rounds. *)
Lemma retry_all_fail P head track i n :
  forall s res,
    (forall hist, bios_status P hist 2 (drive s) head track i 1 <> 0) ->
    res <> 0 ->
    let r := retry P n res head track i s in
    exists evs,
      retry_shape (drive s) head track i n evs /\
      trace (snd r) = rev evs ++ trace s /\
      (n <> O -> fst r <> 0) /\
      sectors (snd r) = sectors s /\ tracks (snd r) = tracks s /\
      heads (snd r) = heads s /\ drive (snd r) = drive s /\
      trackbytes (snd r) = trackbytes s /\ dst (snd r) = dst s.
Proof.
  induction n as [|n IH]; intros s res Hfail Hres.
  - exists []. cbn. repeat split; try constructor. congruence.
  - cbn [retry]. apply Z.eqb_neq in Hres. rewrite Hres.
    pose proof (biosdisk_frame P 0 (drive (printf MStar s)) 0 0 0 1 (printf MStar s)) as B0.
    destruct (biosdisk P 0 (drive (printf MStar s)) 0 0 0 1 (printf MStar s))
      as [st0 s1] eqn:E0.
    cbn [fst snd] in B0. destruct B0 as (_ & T0 & S0 & K0 & H0 & D0 & B0 & F0).
    pose proof (biosdisk_frame P 2 (drive s1) head track i 1 s1) as B1.
    destruct (biosdisk P 2 (drive s1) head track i 1 s1) as [st1 s2] eqn:E1.
    cbn [fst snd] in B1. destruct B1 as (V1 & T1 & S1 & K1 & H1 & D1 & B1 & F1).
    cbn in D0.
    assert (Hst1 : st1 <> 0) by (rewrite V1, D0; apply Hfail).
    specialize (IH s2 st1).
    destruct IH as (evs & Hsh & Htr & Hne & S2 & K2 & H2 & D2 & B2 & F2).
    { intros hist. rewrite D1, D0. apply Hfail. }
    { exact Hst1. }
    exists (EvStdout MStar :: EvBiosdisk 0 (drive s) 0 0 0 1 st0
              :: EvBiosdisk 2 (drive s) head track i 1 st1 :: evs).
    split; [constructor; [exact Hst1 | now rewrite D1, D0 in Hsh]|].
    split.
    { rewrite Htr, T1, T0, D0. cbn [rev printf emit trace drive].
      rewrite <- !app_assoc. reflexivity. }
    split.
    { intros _. destruct n; [cbn; exact Hst1 | apply Hne; discriminate]. }
    cbn in S0, K0, H0, B0, F0.
    repeat split; congruence.
Qed.

(** C1, as the code has it: a sector whose reads all fail is read 11 times,
    the first attempt followed by 10 retries, each retry right after a
    controller reset; one ERR line and no other line goes to the log for it;
    then 512 bytes are handed to [write], and when that write is complete
    the destination has grown by exactly 512 bytes. *)
Theorem failing_sector_eleven_reads P head track i s :
  (forall hist, bios_status P hist 2 (drive s) head track i 1 <> 0) ->
  let s1 := read_sect P head track i s in
  let r := sect_body P head track i s in
  exists st retries,
    st <> 0 /\
    retry_shape (drive s) head track i 10 retries /\
    let new := EvBiosdisk 2 (drive s) head track i 1 st :: retries ++
               [EvStdout (MErrCHS track head i); EvLog (LogERR track head i)] in
    rev (trace s1) = rev (trace s) ++ new /\
    count (is_read_of head track i) new = 11%nat /\
    count is_reset new = 10%nat /\
    count (is_err_line track head i) new = 1%nat /\
    count is_log new = 1%nat /\
    rev (trace (snd r)) = rev (trace s1) ++ [EvWrite 512 (fst r)] /\
    (512 <= sink_room P (trace s1) -> fst r = 512) /\
    (fst r = 512 ->
       dst (snd r) = dst s ++ peek 512 (buf s1) /\
       List.length (dst (snd r)) = (List.length (dst s) + 512)%nat).
Proof.
  intros Hfail s1 r.
  pose proof (biosdisk_frame P 2 (drive s) head track i 1 s) as B.
  pose proof (write_frame P 512 s1 ltac:(lia)) as W.
  subst r s1. unfold sect_body in *. unfold read_sect in *.
  destruct (biosdisk P 2 (drive s) head track i 1 s) as [st s0] eqn:E.
  cbn [fst snd] in B. destruct B as (V & T & S0 & K0 & H0 & D0 & B0 & F0).
  assert (Hst : st <> 0) by (rewrite V; apply Hfail).
  apply Z.eqb_neq in Hst. rewrite Hst in *. cbn [negb] in *.
  destruct (retry_all_fail P head track i 10 s0 1) as
    (evs & Hsh & Htr & Hne & S1 & K1 & H1 & D1 & B1 & F1);
    [intros hist; rewrite D0; apply Hfail | lia |].
  destruct (retry P 10 1 head track i s0) as [res s1] eqn:Er.
  cbn [fst snd] in *. specialize (Hne ltac:(discriminate)).
  apply Z.eqb_neq in Hne. rewrite Hne in *. cbn [negb] in *.
  rewrite D0 in Hsh.
  exists st, evs. split; [now apply Z.eqb_neq|]. split; [exact Hsh|].
  destruct (retry_shape_counts _ _ _ _ _ _ Hsh) as (C1 & C2 & C3).
  cbv zeta.
  split.
  { cbn [flog printf emit trace rev]. rewrite Htr, T, rev_app_distr, rev_involutive.
    cbn [rev]. rewrite <- !app_assoc. reflexivity. }
  split.
  { change (?a :: evs ++ ?l) with ([a] ++ evs ++ l). rewrite !count_app, C1.
    unfold count. cbn [filter is_read_of]. rewrite !Z.eqb_refl. reflexivity. }
  split.
  { change (?a :: evs ++ ?l) with ([a] ++ evs ++ l). rewrite !count_app, C2.
    reflexivity. }
  split.
  { change (?a :: evs ++ ?l) with ([a] ++ evs ++ l). rewrite !count_app.
    assert (count (is_err_line track head i) evs = O) as ->.
    { clear - Hsh. induction Hsh; [reflexivity|]. exact IHHsh. }
    unfold count. cbn [filter is_err_line]. rewrite !Z.eqb_refl. reflexivity. }
  split.
  { change (?a :: evs ++ ?l) with ([a] ++ evs ++ l). rewrite !count_app, C3.
    reflexivity. }
  destruct W as (WT & _ & _ & _ & _ & _ & _ & Wr & Wok & Wroom).
  split; [rewrite WT; reflexivity|].
  split.
  { intros Hroom. specialize (Wroom Hroom).
    apply Z.eqb_eq. rewrite int_ne_512 by exact Wr. now apply Z.eqb_eq. }
  intros Hw. rewrite Hw in Wok. destruct (Wok eq_refl) as [_ Hd].
  rewrite Hd. cbn [flog printf emit dst]. rewrite F1, F0.
  split; [reflexivity|]. now rewrite length_app, peek_length.
Qed.

Lemma failing_sector_eleven_reads_witness :
  let P := P_unreadable in
  let s := s_1_1_2 P in
  exists st retries,
    st <> 0 /\
    retry_shape (drive s) 0 0 1 10 retries /\
    rev (trace (read_sect P 0 0 1 s)) =
      rev (trace s) ++ EvBiosdisk 2 (drive s) 0 0 1 1 st :: retries ++
        [EvStdout (MErrCHS 0 0 1); EvLog (LogERR 0 0 1)].
Proof.
  intros P s.
  destruct (failing_sector_eleven_reads P 0 0 1 s) as (st & retries & H1 & H2 & H3 & _).
  - intros hist. vm_compute. discriminate.
  - exists st, retries. repeat split; assumption.
Defined.

(** C1 as stated fails: on a sector whose reads all fail the program does
    not make 10 read attempts but 11, and only 10 resets. *)
Lemma ten_reads_refuted :
  let P := P_unreadable in
  let s := s_1_1_2 P in
  ~ ((forall hist, bios_status P hist 2 (drive s) 0 0 1 1 <> 0) ->
     count (is_read_of 0 0 1) (trace (read_sect P 0 0 1 s)) = 10%nat).
Proof.
  intros P s H.
  assert (E : count (is_read_of 0 0 1) (trace (read_sect P 0 0 1 s)) = 10%nat).
  { apply H. intros hist. vm_compute. discriminate. }
  vm_compute in E. discriminate E.
Qed.

(** ** main up to the geometry check *)

Lemma hddinfo_result P s : fst (hddinfo P s) = 0 \/ fst (hddinfo P s) = 1.
Proof.
  destruct (Z.eq_dec (u8 (r_ah (int13h_8 P (drive s)))) 0) as [H|H].
  - rewrite (hddinfo_success P s H). cbn [fst]. destruct (_ || _); auto.
  - rewrite (hddinfo_failure P s H). auto.
Qed.

(** hddinfo touches neither the disk nor the destination. *)
Lemma hddinfo_no_io P s :
  Forall (fun e => is_io e = false) (trace s) ->
  Forall (fun e => is_io e = false) (trace (snd (hddinfo P s))) /\
  dst (snd (hddinfo P s)) = dst s /\
  drive (snd (hddinfo P s)) = drive s.
Proof.
  intros Hc.
  destruct (Z.eq_dec (u8 (r_ah (int13h_8 P (drive s)))) 0) as [H|H].
  - rewrite (hddinfo_success P s H). cbn [snd trace dst drive].
    repeat split. apply Forall_app. split.
    + unfold hddinfo_warnings. apply Forall_app.
      split; destruct (_ =? _) || destruct (_ <? _); repeat constructor.
    + constructor; [reflexivity | exact Hc].
  - rewrite (hddinfo_failure P s H). cbn. repeat split.
    repeat constructor. exact Hc.
Qed.

Lemma apply_overrides_frame opts s :
  trace (apply_overrides opts s) = trace s /\
  dst (apply_overrides opts s) = dst s /\
  drive (apply_overrides opts s) = drive s /\
  buf (apply_overrides opts s) = buf s.
Proof.
  unfold apply_overrides.
  destruct (ss opts =? 0), (hs opts =? 0), (ts opts =? 0); repeat split.
Qed.

(** C8: when a geometry field is zero after the overrides, main prints
    that it cannot continue and exits with status 1; it has not called the
    disk service, has not opened the destination and has written nothing. *)
Theorem zero_geometry_no_imaging P fuel argv opts fn :
  parse_args argv opts0 None = Some (opts, Some fn) ->
  let g := apply_overrides opts (snd (hddinfo P (before_hddinfo P opts))) in
  tracks g = 0 \/ heads g = 0 \/ sectors g = 0 ->
  main P fuel argv =
    (Some 1, printf (MCHS (tracks g) (heads g) (sectors g)) (printf MCantContinue g)) /\
  Forall (fun e => is_io e = false) (trace (snd (main P fuel argv))) /\
  dst (snd (main P fuel argv)) = [].
Proof.
  intros Hparse g Hzero.
  assert (Hmain : main P fuel argv =
    (Some 1, printf (MCHS (tracks g) (heads g) (sectors g)) (printf MCantContinue g))).
  { unfold main. rewrite Hparse. unfold main_body.
    pose proof (hddinfo_result P (before_hddinfo P opts)) as Hr.
    subst g.
    destruct (hddinfo P (before_hddinfo P opts)) as [rhi s1]. cbn [fst snd] in *.
    assert (E : (rhi <? 0) = false) by (apply Z.ltb_ge; lia).
    rewrite E.
    assert (Z : (tracks (apply_overrides opts s1) =? 0)
                || (heads (apply_overrides opts s1) =? 0)
                || (sectors (apply_overrides opts s1) =? 0) = true).
    { destruct Hzero as [H|[H|H]]; rewrite H; cbn;
        rewrite ?orb_true_r; reflexivity. }
    rewrite Z. reflexivity. }
  split; [exact Hmain|]. rewrite Hmain. cbn [snd printf emit trace dst].
  subst g.
  destruct (apply_overrides_frame opts (snd (hddinfo P (before_hddinfo P opts))))
    as (-> & -> & _).
  destruct (hddinfo_no_io P (before_hddinfo P opts)) as (Hio & -> & _).
  { unfold before_hddinfo. destruct (ds opts =? 0); repeat constructor. }
  split; [repeat constructor; exact Hio|].
  unfold before_hddinfo. destruct (ds opts =? 0); reflexivity.
Qed.

Lemma zero_geometry_no_imaging_witness :
  main P_100_99 100 ["-s=0"; "out.img"]%string =
    (Some 1,
     printf (MCHS 100 2 0)
       (printf MCantContinue
          (apply_overrides (mkOpts 0 0 0 0 0 0 1 0)
             (snd (hddinfo P_100_99 (before_hddinfo P_100_99 (mkOpts 0 0 0 0 0 0 1 0))))))).
Proof.
  exact (proj1 (zero_geometry_no_imaging P_100_99 100 ["-s=0"; "out.img"]%string
                  (mkOpts 0 0 0 0 0 0 1 0) "out.img"%string eq_refl
                  (or_intror (or_intror eq_refl)))).
Defined.

(** ** A failed write ends the run *)

Lemma same_globals_refl s : same_globals s s.
Proof. repeat split. Qed.

Lemma same_globals_trans s1 s2 s3 :
  same_globals s1 s2 -> same_globals s2 s3 -> same_globals s1 s3.
Proof. unfold same_globals. intuition congruence. Qed.

Lemma good_app a b : good a -> good b -> good (a ++ b).
Proof. intros. apply Forall_app. now split. Qed.

Lemma not_write_good evs :
  Forall (fun e => is_write e = false) evs -> good evs.
Proof.
  apply Forall_impl. intros [] H; try reflexivity. discriminate H.
Qed.

Lemma stopped_app a b : stopped a -> good b -> stopped (a ++ b).
Proof.
  intros (later & len & ret & earlier & -> & Hf & Hg & Hl & Hin) Hb.
  exists later, len, ret, (earlier ++ b).
  rewrite <- app_assoc. repeat split; auto using good_app.
Qed.

Lemma stopped_later t evs :
  Forall (fun e => is_copy_step e = false) t -> stopped evs -> stopped (t ++ evs).
Proof.
  intros Ht (later & len & ret & earlier & -> & Hf & Hg & Hl & Hin).
  exists (t ++ later), len, ret, earlier.
  rewrite <- app_assoc. repeat split; auto.
  - apply Forall_app. now split.
  - apply in_or_app. now right.
Qed.

Lemma biosdisk_step P cmd drv head track sector nsects s :
  let r := biosdisk P cmd drv head track sector nsects s in
  same_globals s (snd r) /\ dst (snd r) = dst s /\
  trace (snd r) = EvBiosdisk cmd drv head track sector nsects (fst r) :: trace s.
Proof.
  pose proof (biosdisk_frame P cmd drv head track sector nsects s) as H.
  cbv zeta in *. unfold same_globals. intuition.
Qed.

Lemma retry_frame P head track i n :
  forall s res,
    let r := retry P n res head track i s in
    same_globals s (snd r) /\ dst (snd r) = dst s /\
    exists evs, trace (snd r) = evs ++ trace s /\
                Forall (fun e => is_write e = false) evs.
Proof.
  induction n as [|n IH]; intros s res.
  - cbn. split; [apply same_globals_refl|]. split; [reflexivity|]. now exists [].
  - cbn [retry]. destruct (res =? 0).
    + cbn. split; [apply same_globals_refl|]. split; [reflexivity|]. now exists [].
    + pose proof (biosdisk_step P 0 (drive (printf MStar s)) 0 0 0 1 (printf MStar s)) as B0.
      destruct (biosdisk P 0 (drive (printf MStar s)) 0 0 0 1 (printf MStar s))
        as [st0 s1]. cbn [fst snd] in B0. destruct B0 as (G0 & D0 & T0).
      cbn [printf emit dst] in D0.
      pose proof (biosdisk_step P 2 (drive s1) head track i 1 s1) as B1.
      destruct (biosdisk P 2 (drive s1) head track i 1 s1) as [st1 s2].
      cbn [fst snd] in B1. destruct B1 as (G1 & D1 & T1).
      destruct (IH s2 st1) as (G2 & D2 & evs & T2 & Hev).
      split.
      { eapply same_globals_trans; [|exact G2].
        eapply same_globals_trans; [|exact G1]. exact G0. }
      split; [congruence|].
      exists (evs ++ [EvBiosdisk 2 (drive s1) head track i 1 st1;
                      EvBiosdisk 0 (drive (printf MStar s)) 0 0 0 1 st0;
                      EvStdout MStar]).
      split.
      * rewrite T2, T1, T0. cbn [printf emit trace]. now rewrite <- app_assoc.
      * apply Forall_app. split; [exact Hev | repeat constructor].
Qed.

Lemma read_sect_frame P head track i s :
  let s' := read_sect P head track i s in
  same_globals s s' /\ dst s' = dst s /\
  exists evs, trace s' = evs ++ trace s /\
              Forall (fun e => is_write e = false) evs.
Proof.
  unfold read_sect.
  pose proof (biosdisk_step P 2 (drive s) head track i 1 s) as B.
  destruct (biosdisk P 2 (drive s) head track i 1 s) as [st s0].
  cbn [fst snd] in B. destruct B as (G0 & D0 & T0).
  destruct (negb (st =? 0)).
  - pose proof (retry_frame P head track i 10 s0 1) as R.
    destruct (retry P 10 1 head track i s0) as [res s1].
    cbn [fst snd] in R. destruct R as (G1 & D1 & evs & T1 & Hev).
    assert (G : same_globals s s1) by (eapply same_globals_trans; eauto).
    destruct (negb (res =? 0)); cbn; (split; [exact G|]); (split; [congruence|]).
    + exists (EvLog (LogERR track head i) :: EvStdout (MErrCHS track head i)
                :: evs ++ [EvBiosdisk 2 (drive s) head track i 1 st]).
      cbn [app]. rewrite T1, T0, <- app_assoc. split; [reflexivity|].
      repeat constructor. apply Forall_app. split; [exact Hev|repeat constructor].
    + exists (EvStdout MDot :: EvLog (LogOK track head i)
                :: evs ++ [EvBiosdisk 2 (drive s) head track i 1 st]).
      cbn [app]. rewrite T1, T0, <- app_assoc. split; [reflexivity|].
      repeat constructor. apply Forall_app. split; [exact Hev|repeat constructor].
  - cbn. split; [exact G0|]. split; [exact D0|].
    exists [EvStdout MDot; EvLog (LogOK track head i);
            EvBiosdisk 2 (drive s) head track i 1 st].
    rewrite T0. split; [reflexivity | repeat constructor].
Qed.

Lemma write_step P len s :
  0 <= len < 65535 ->
  let r := write P len s in
  same_globals s (snd r) /\ buf (snd r) = buf s /\
  trace (snd r) = EvWrite len (fst r) :: trace s /\
  -32768 <= fst r < 32768.
Proof.
  intros H. pose proof (write_frame P len s H) as W. cbv zeta in *.
  unfold same_globals. intuition.
Qed.

Lemma sects_loop_trace P head track fuel :
  forall i s,
    let r := sects_loop P fuel i head track s in
    same_globals s (snd r) /\
    exists evs,
      trace (snd r) = evs ++ trace s /\
      ((fst r = Some (-1) /\
        exists len ret rest,
          evs = EvWrite len ret :: rest /\
          write_failed (EvWrite len ret) = true /\ good rest) \/
       ((fst r = Some 0 \/ fst r = None) /\ good evs)).
Proof.
  induction fuel as [|fuel IH]; intros i s.
  - cbn. split; [apply same_globals_refl|]. exists []. split; [reflexivity|].
    right. split; [now right | constructor].
  - cbn [sects_loop]. destruct (u16 i <=? sectors s).
    2:{ cbn. split; [apply same_globals_refl|]. exists []. split; [reflexivity|].
        right. split; [now left | constructor]. }
    unfold sect_body.
    destruct (read_sect_frame P head track i s) as (G1 & _ & evs1 & T1 & Hev1).
    pose proof (write_step P 512 (read_sect P head track i s) ltac:(lia)) as W.
    destruct (write P 512 (read_sect P head track i s)) as [w s2].
    cbn [fst snd] in W. destruct W as (G2 & _ & T2 & Hw).
    assert (G : same_globals s s2) by (eapply same_globals_trans; eauto).
    destruct (Z.eqb_spec w 512) as [->|Hne]; cbn [negb].
    + specialize (IH (i16 (i + 1)) s2). cbv zeta in IH.
      destruct (sects_loop P fuel (i16 (i + 1)) head track s2) as [r s3].
      cbn [fst snd] in *. destruct IH as (G3 & evs & T3 & Hcase).
      split; [eapply same_globals_trans; eauto|].
      assert (Hmid : good (EvWrite 512 512 :: evs1)).
      { constructor; [reflexivity | now apply not_write_good]. }
      exists (evs ++ EvWrite 512 512 :: evs1).
      split; [rewrite T3, T2, T1, <- app_assoc; reflexivity|].
      destruct Hcase as [(Hr & len & ret & rest & -> & Hf & Hg)|(Hr & Hg)].
      * left. split; [exact Hr|].
        exists len, ret, (rest ++ EvWrite 512 512 :: evs1).
        repeat split; auto using good_app.
      * right. split; [exact Hr | now apply good_app].
    + cbn [fst snd]. split; [exact G|].
      exists (EvWrite 512 w :: evs1). split; [rewrite T2, T1; reflexivity|].
      left. split; [reflexivity|]. exists 512, w, evs1.
      repeat split; [|now apply not_write_good].
      rewrite write_failed_detect by lia. rewrite <- int_ne_512 by exact Hw.
      apply negb_true_iff. now apply Z.eqb_neq.
Qed.

Lemma copy_track_trace P head track s :
  0 <= trackbytes s < 65535 ->
  let r := copy_track P head track s in
  same_globals s (snd r) /\
  exists evs,
    trace (snd r) = evs ++ trace s /\
    ((fst r = -1 /\
      exists len ret rest,
        evs = EvWrite len ret :: rest /\
        write_failed (EvWrite len ret) = true /\ good rest) \/
     ((fst r = 0 \/ fst r = 1) /\ good evs)).
Proof.
  intros Htb. unfold copy_track.
  pose proof (biosdisk_step P 2 (drive s) head track 1 (sectors s) s) as B.
  destruct (biosdisk P 2 (drive s) head track 1 (sectors s) s) as [st s1].
  cbn [fst snd] in B. destruct B as (G1 & _ & T1).
  destruct (negb (st =? 0)).
  - cbn [fst snd]. split; [exact G1|].
    exists [EvBiosdisk 2 (drive s) head track 1 (sectors s) st].
    split; [rewrite T1; reflexivity|]. right. split; [now right | repeat constructor].
  - assert (Htb1 : trackbytes s1 = trackbytes s) by apply G1.
    pose proof (write_step P (trackbytes s1) s1 ltac:(lia)) as W.
    destruct (write P (trackbytes s1) s1) as [w s2].
    cbn [fst snd] in W. destruct W as (G2 & _ & T2 & Hw).
    assert (G : same_globals s s2) by (eapply same_globals_trans; eauto).
    assert (Htb2 : trackbytes s2 = trackbytes s1) by apply G2.
    pose proof (write_failed_detect (trackbytes s1) w ltac:(lia)) as Hdet.
    rewrite Htb2.
    destruct (negb (u16 w =? trackbytes s1)) eqn:E; cbn [fst snd].
    + split; [exact G|].
      exists [EvWrite (trackbytes s1) w;
              EvBiosdisk 2 (drive s) head track 1 (sectors s) st].
      split; [rewrite T2, T1; reflexivity|].
      left. split; [reflexivity|]. do 3 eexists.
      split; [reflexivity|]. split; [exact Hdet | repeat constructor].
    + split; [exact G|].
      exists [EvStdout (MTrackOK track head); EvWrite (trackbytes s1) w;
              EvBiosdisk 2 (drive s) head track 1 (sectors s) st].
      split; [cbn; rewrite T2, T1; reflexivity|].
      right. split; [now left | repeat constructor; exact Hdet].
Qed.

Lemma copy_unit_outcome P fuel head track s :
  0 <= trackbytes s < 65535 ->
  unit_outcome s (copy_unit P fuel head track s).
Proof.
  intros Htb. unfold copy_unit, unit_outcome.
  destruct (copy_track_trace P head track s Htb) as (G1 & evs1 & T1 & Hcase).
  destruct (copy_track P head track s) as [res s1]. cbn [fst snd] in *.
  destruct Hcase as [(-> & len & ret & rest & -> & Hf & Hg)|([->| ->] & Hg)];
    cbn [Z.eqb Z.ltb Z.compare fst snd].
  - split; [exact G1|].
    exists (EvStdout MWriteFailed :: EvWrite len ret :: rest).
    split; [cbn; rewrite T1; reflexivity|].
    left. split; [reflexivity|].
    exists [EvStdout MWriteFailed], len, ret, rest.
    repeat split; auto. now left.
  - split; [exact G1|].
    exists (EvLog (LogTrackOK track head) :: evs1).
    split; [cbn; rewrite T1; reflexivity|].
    right. split; [now left | constructor; [reflexivity | exact Hg]].
  - unfold copy_sects.
    destruct (sects_loop_trace P head track fuel 1 s1) as (G2 & evs2 & T2 & Hcase).
    destruct (sects_loop P fuel 1 head track s1) as [[r|] s2]; cbn [fst snd] in *.
    + destruct Hcase as [(Hr & len & ret & rest & -> & Hf & Hg2)|([Hr|Hr] & Hg2)];
        try discriminate; injection Hr as ->; cbn [Z.ltb Z.compare fst snd].
      * split; [eapply same_globals_trans; eauto|].
        exists ([EvStdout MWriteFailed; EvClose] ++ EvWrite len ret :: rest ++ evs1).
        split; [cbn; rewrite T2, T1, <- app_assoc; reflexivity|].
        left. split; [reflexivity|].
        exists [EvStdout MWriteFailed; EvClose], len, ret, (rest ++ evs1).
        repeat split; auto using good_app. now left.
      * split; [eapply same_globals_trans; eauto|].
        exists (evs2 ++ evs1). split; [rewrite T2, T1, <- app_assoc; reflexivity|].
        right. split; [now left | now apply good_app].
    + destruct Hcase as [(Hr & _)|(_ & Hg2)]; [discriminate|].
      split; [eapply same_globals_trans; eauto|].
      exists (evs2 ++ evs1). split; [rewrite T2, T1, <- app_assoc; reflexivity|].
      right. split; [now right | now apply good_app].
Qed.

Lemma unit_outcome_nil s : unit_outcome s (Some false, s).
Proof.
  split; [apply same_globals_refl|]. exists []. split; [reflexivity|].
  right. split; [now left | constructor].
Qed.

Lemma unit_outcome_seq s s1 r :
  unit_outcome s (Some false, s1) -> unit_outcome s1 r -> unit_outcome s r.
Proof.
  intros (G1 & evs1 & T1 & H1) (G2 & evs2 & T2 & H2). cbn [fst snd] in *.
  assert (Hg1 : good evs1).
  { destruct H1 as [(Hr & _)|(_ & Hg)]; [discriminate | exact Hg]. }
  split; [eapply same_globals_trans; eauto|].
  exists (evs2 ++ evs1). split; [rewrite T2, T1, <- app_assoc; reflexivity|].
  destruct H2 as [(Hr & Hs)|(Hr & Hg)].
  - left. split; [exact Hr | now apply stopped_app].
  - right. split; [exact Hr | now apply good_app].
Qed.

Lemma head_loop_outcome P fuel n :
  forall head track s,
    0 <= trackbytes s < 65535 ->
    unit_outcome s (head_loop P fuel n head track s).
Proof.
  induction n as [|n IH]; intros head track s Htb.
  - apply unit_outcome_nil.
  - cbn [head_loop].
    pose proof (copy_unit_outcome P fuel head track s Htb) as U.
    destruct (copy_unit P fuel head track s) as [[[|]|] s1]; try exact U.
    eapply unit_outcome_seq; [exact U|]. apply IH.
    destruct U as ((_ & _ & _ & _ & E) & _). cbn [snd] in E. lia.
Qed.

Lemma track_loop_outcome P fuel n :
  forall track s,
    0 <= trackbytes s < 65535 ->
    unit_outcome s (track_loop P fuel n track s).
Proof.
  induction n as [|n IH]; intros track s Htb.
  - apply unit_outcome_nil.
  - cbn [track_loop].
    pose proof (head_loop_outcome P fuel (Z.to_nat (heads s)) 0 track s Htb) as U.
    destruct (head_loop P fuel (Z.to_nat (heads s)) 0 track s) as [[[|]|] s1];
      try exact U.
    eapply unit_outcome_seq; [exact U|]. apply IH.
    destruct U as ((_ & _ & _ & _ & E) & _). cbn [snd] in E. lia.
Qed.

(** [trackbytes] is a multiple of 512 below 65536, so never 65535. *)
Lemma trackbytes_range x : 0 <= u16 (512 * x) < 65535.
Proof.
  unfold u16. change 65536 with (512 * 128).
  rewrite Z.mul_mod_distr_l by lia.
  pose proof (Z.mod_pos_bound x 128). lia.
Qed.

Lemma hddinfo_good P s :
  good (trace s) -> good (trace (snd (hddinfo P s))).
Proof.
  intros Hg.
  destruct (Z.eq_dec (u8 (r_ah (int13h_8 P (drive s)))) 0) as [H|H].
  - rewrite (hddinfo_success P s H). cbn [snd trace].
    apply good_app; [|constructor; [reflexivity | exact Hg]].
    unfold hddinfo_warnings. apply good_app.
    + destruct (_ =? _); repeat constructor.
    + destruct (_ <? _); repeat constructor.
  - rewrite (hddinfo_failure P s H). cbn. repeat constructor. exact Hg.
Qed.

Lemma run_copy_outcome P fuel fn s :
  0 <= trackbytes s < 65535 ->
  good (trace s) ->
  let r := run_copy P fuel fn s in
  good (trace (snd r)) \/ (fst r = Some 1 /\ stopped (trace (snd r))).
Proof.
  intros Htb Hg. unfold run_copy.
  destruct (open_ok P fn); cbn [negb].
  2:{ left. cbn. repeat constructor. exact Hg. }
  unfold image_loop.
  set (s0 := flog _ (flog _ (emit EvFopenLog (emit _ s)))).
  assert (Hg0 : good (trace s0)) by (subst s0; cbn; repeat constructor; exact Hg).
  pose proof (track_loop_outcome P fuel (Z.to_nat (tracks s0)) 0 s0 Htb) as U.
  destruct (track_loop P fuel (Z.to_nat (tracks s0)) 0 s0) as [[[|]|] s1];
    destruct U as (_ & evs & T & Hcase); cbn [fst snd] in *.
  - right. split; [reflexivity|].
    destruct Hcase as [(_ & Hs)|([Hr|Hr] & _)]; try discriminate.
    cbn [emit trace]. rewrite T.
    change (EvFcloseLog :: EvClose :: EvFree :: evs ++ trace s0)
      with ([EvFcloseLog; EvClose; EvFree] ++ evs ++ trace s0).
    rewrite app_assoc. apply stopped_app; [|exact Hg0].
    apply stopped_later; [repeat constructor | exact Hs].
  - left. destruct Hcase as [(Hr & _)|(_ & Hgood)]; [discriminate|].
    cbn. rewrite T. repeat constructor. now apply good_app.
  - left. destruct Hcase as [(Hr & _)|(_ & Hgood)]; [discriminate|].
    rewrite T. now apply good_app.
Qed.

Lemma main_body_outcome P fuel opts fn :
  let r := main_body P fuel opts fn in
  good (trace (snd r)) \/ (fst r = Some 1 /\ stopped (trace (snd r))).
Proof.
  unfold main_body.
  assert (Hg : good (trace (snd (hddinfo P (before_hddinfo P opts))))).
  { apply hddinfo_good. unfold before_hddinfo.
    destruct (ds opts =? 0); repeat constructor. }
  destruct (hddinfo P (before_hddinfo P opts)) as [rhi s1]. cbn [snd] in Hg.
  destruct (rhi <? 0); [left; cbn; repeat constructor; exact Hg|].
  destruct (apply_overrides_frame opts s1) as (T & _).
  set (g := apply_overrides opts s1) in *. rewrite <- T in Hg.
  destruct (_ || _); [left; cbn; repeat constructor; exact Hg|].
  cbn [set_trackbytes emit trackbytes].
  destruct (malloc_ok P _); cbn [negb];
    [|left; cbn; repeat constructor; exact Hg].
  destruct (negb (getch_key P =? 13)).
  - left. cbn [snd emit printf trace].
    destruct (_ || _), (rhi =? 0); cbn; repeat constructor; exact Hg.
  - apply run_copy_outcome.
    + destruct (_ || _), (rhi =? 0); cbn; apply trackbytes_range.
    + destruct (_ || _), (rhi =? 0); cbn; repeat constructor; exact Hg.
Qed.

Lemma main_outcome P fuel argv :
  let r := main P fuel argv in
  good (trace (snd r)) \/ (fst r = Some 1 /\ stopped (trace (snd r))).
Proof.
  unfold main. destruct (parse_args argv opts0 None) as [[opts [fn|]]|].
  - apply main_body_outcome.
  - left. cbn. repeat constructor.
  - left. cbn. repeat constructor.
Qed.

(** After a failed write there are no copy steps, so the failed write in a
    stopped trace is where any failed write of that trace is. *)
Lemma failed_write_unique later' :
  forall later e earlier e' earlier',
    later ++ e :: earlier = later' ++ e' :: earlier' ->
    write_failed e = true ->
    good earlier' ->
    Forall (fun x => is_copy_step x = false) later' ->
    later = later'.
Proof.
  induction later' as [|y l' IH]; intros later e earlier e' earlier' E Hf Hg Hl.
  - destruct later as [|x l]; [reflexivity|]. exfalso.
    cbn in E. injection E as _ E.
    assert (Hin : In e earlier') by (rewrite <- E; apply in_elt).
    unfold good in Hg. rewrite Forall_forall in Hg. specialize (Hg e Hin).
    congruence.
  - destruct later as [|x l].
    + exfalso. cbn in E. injection E as <- _.
      inversion Hl as [|? ? Hy _]. destruct e; discriminate.
    + cbn in E. injection E as -> E. f_equal.
      inversion Hl; subst. eapply IH; eauto.
Qed.

(** C7: wherever a write fails in a run of main, bulk or sector by sector,
    main ends with status 1 ("write failed" on the console), and after the
    failed write there is no further write, no call of the disk service and
    no log line: what follows is only the message and the closing of the
    files.  This holds for runs of any length. *)
Theorem failed_write_ends_session P fuel argv later e earlier :
  trace (snd (main P fuel argv)) = later ++ e :: earlier ->
  write_failed e = true ->
  fst (main P fuel argv) = Some 1 /\
  Forall (fun x => is_copy_step x = false) later /\
  In (EvStdout MWriteFailed) later.
Proof.
  intros E Hf.
  destruct (main_outcome P fuel argv) as [Hg|(Hr & Hs)].
  - exfalso. unfold good in Hg. rewrite Forall_forall in Hg.
    assert (Hin : In e (trace (snd (main P fuel argv))))
      by (rewrite E; apply in_elt).
    specialize (Hg e Hin). congruence.
  - split; [exact Hr|].
    destruct Hs as (later' & len & ret & earlier' & E' & Hf' & Hg' & Hl & Hin).
    rewrite E in E'.
    rewrite (failed_write_unique later' later e earlier _ earlier' E' Hf Hg' Hl).
    split; assumption.
Qed.

Lemma failed_write_ends_session_witness :
  fst (main P_small_room 100 ["out.img"%string]) = Some 1 /\
  Forall (fun x => is_copy_step x = false)
         [EvFcloseLog; EvClose; EvFree; EvStdout MWriteFailed] /\
  In (EvStdout MWriteFailed)
     [EvFcloseLog; EvClose; EvFree; EvStdout MWriteFailed].
Proof.
  apply (failed_write_ends_session P_small_room 100 ["out.img"%string]
           [EvFcloseLog; EvClose; EvFree; EvStdout MWriteFailed]
           (EvWrite 8704 600)
           [EvBiosdisk 2 128 0 0 1 17 0;
            EvLog (LogDrive 0 100 2 17); EvLog (LogStarted "out.img");
            EvFopenLog; EvOpen "out.img" true; EvGetch 13;
            EvStdout MPressEnter; EvStdout (MWillWrite "out.img");
            EvStdout (MWillRead 100 2 17); EvMalloc 8704 true;
            EvInt13_8 128 0; EvStdout MChecking]).
  - vm_compute. reflexivity.
  - vm_compute. reflexivity.
Defined.

(** The same in the sector-by-sector path: the destination takes the first
    sector and fails on the second. *)
Example failed_write_in_fallback :
  let r := main P_full 100 ["out.img"%string] in
  fst r = Some 1 /\
  firstn 6 (trace (snd r)) =
    [EvFcloseLog; EvClose; EvFree; EvStdout MWriteFailed; EvClose; EvWrite 512 88] /\
  count is_write (trace (snd r)) = 2%nat.
Proof. vm_compute. repeat split. Qed.

(** ** A failed geometry query *)

(** hddinfo never returns a negative value, so the test [hddinfo()<0] in
    main never fires. *)
Lemma hddinfo_never_negative P s : (fst (hddinfo P s) <? 0) = false.
Proof. apply Z.ltb_ge. destruct (hddinfo_result P s); lia. Qed.

(** C3: int 13h,8 fails and the command line gives all three geometry
    fields.  hddinfo reports the failure as 1, main does not print that it is
    unable to read the disk information, opens the destination and images
    2 x 2 x 3 sectors into it. *)
Theorem failed_query_still_images :
  let P := P_query_fails in
  let r := main P 100 argv_2_2_3 in
  u8 (r_ah (int13h_8 P 128)) <> 0 /\
  (count is_disk_info_error (trace (snd r)),
   count is_unable_msg (trace (snd r)),
   count is_open (trace (snd r)),
   count is_write (trace (snd r))) = (1%nat, 0%nat, 1%nat, 4%nat) /\
  Z.of_nat (List.length (dst (snd r))) = 6144 /\
  fst r = Some 0.
Proof.
  intros P r.
  split; [vm_compute; discriminate|].
  split; [vm_compute; reflexivity|].
  split; vm_compute; reflexivity.
Qed.

(** ** The size of the track buffer *)

(** [512*sectors] fits an [unsigned int] exactly when [sectors < 128]. *)
Lemma trackbytes_exact x :
  0 <= x < 65536 -> (u16 (512 * x) = 512 * x <-> x < 128).
Proof.
  intros Hx. unfold u16. change 65536 with (512 * 128).
  rewrite Z.mul_mod_distr_l by lia. split; intros H.
  - assert (x mod 128 = x) by lia.
    pose proof (Z.mod_pos_bound x 128). lia.
  - rewrite Z.mod_small; lia.
Qed.

(** C9: with 129 sectors per track, geometry 1 x 1 x 129, the program
    computes 512 for [trackbytes], allocates 512 bytes, asks the BIOS for
    129 sectors and, the read having succeeded, writes 512 bytes; one track
    is 66048 bytes. *)
Theorem trackbytes_wraps_at_129 :
  let r := main P_100_99 100 argv_1_1_129 in
  (fst r, sectors (snd r), trackbytes (snd r)) = (Some 0, 129, 512) /\
  filter is_copy_step (trace (snd r)) =
    [EvLog (LogFinished "out.img"); EvLog (LogTrackOK 0 0); EvWrite 512 512;
     EvBiosdisk 2 128 0 0 1 129 0;
     EvLog (LogDrive 0 1 1 129); EvLog (LogStarted "out.img")] /\
  count (fun e => match e with EvMalloc 512 true => true | _ => false end)
        (trace (snd r)) = 1%nat /\
  129 * 512 = 66048.
Proof.
  intros r.
  split; [vm_compute; reflexivity|].
  split; [vm_compute; reflexivity|].
  split; [vm_compute; reflexivity|].
  reflexivity.
Qed.

(** C4: geometry 2 x 1 x 129, every bulk track copy succeeds.  The
    destination file holds sector 1 of track 0 followed by sector 1 of
    track 1, 1024 bytes, where the 258 sectors make 132096 bytes. *)
Theorem bulk_image_short_at_129 :
  let P := P_100_99 in
  let r := main P 100 argv_2_1_129 in
  (fst r, tracks (snd r), heads (snd r), sectors (snd r)) = (Some 0, 2, 1, 129) /\
  filter is_io (trace (snd r)) =
    [EvWrite 512 512; EvBiosdisk 2 128 0 1 1 129 0;
     EvWrite 512 512; EvBiosdisk 2 128 0 0 1 129 0;
     EvOpen "out.img" true] /\
  dst (snd r) = sector_bytes P 128 0 0 1 ++ sector_bytes P 128 1 0 1 /\
  Z.of_nat (List.length (dst (snd r))) = 1024 /\
  2 * 1 * 129 * 512 = 132096.
Proof.
  intros P r.
  split; [vm_compute; reflexivity|].
  split; [vm_compute; reflexivity|].
  split; [vm_compute; reflexivity|].
  split; [vm_compute; reflexivity|].
  reflexivity.
Qed.

(** C10: geometry 1 x 2 x 129.  Both (cylinder, head) units go through the
    bulk path without a write error, each appends 512 bytes, and the
    finished file has 1024 bytes; 512 x 129 is 66048 and
    1 x 2 x 129 x 512 is 132096. *)
Theorem bulk_unit_short_at_129 :
  let P := P_100_99 in
  let r := main P 100 argv_1_2_129 in
  fst r = Some 0 /\
  count write_failed (trace (snd r)) = 0%nat /\
  filter is_io (trace (snd r)) =
    [EvWrite 512 512; EvBiosdisk 2 128 1 0 1 129 0;
     EvWrite 512 512; EvBiosdisk 2 128 0 0 1 129 0;
     EvOpen "out.img" true] /\
  Z.of_nat (List.length (dst (snd r))) = 1024 /\
  512 * 129 = 66048 /\
  1 * 2 * 129 * 512 = 132096.
Proof.
  intros P r.
  split; [vm_compute; reflexivity|].
  split; [vm_compute; reflexivity|].
  split; [vm_compute; reflexivity|].
  split; [vm_compute; reflexivity|].
  split; reflexivity.
Qed.

(** ** How much a unit appends when [512*sectors] does not wrap *)

Lemma i16_succ k : i16 (i16 k + 1) = i16 (k + 1).
Proof.
  unfold i16. f_equal.
  replace ((k + 32768) mod 65536 - 32768 + 1 + 32768)
    with ((k + 32768) mod 65536 + 1) by lia.
  rewrite Zplus_mod_idemp_l. f_equal. lia.
Qed.

Lemma size_append l s : size (append_dst l s) = size s + Z.of_nat (List.length l).
Proof. unfold size, append_dst. cbn [dst]. rewrite length_app. lia. Qed.

(** A complete write appends exactly the bytes asked for. *)
Lemma write_complete P len s :
  0 <= len < 65535 ->
  u16 (fst (write P len s)) = len ->
  dst (snd (write P len s)) = dst s ++ peek (Z.to_nat len) (buf s) /\
  size (snd (write P len s)) = size s + len.
Proof.
  intros Hlen Hw.
  destruct (write_frame P len s Hlen) as (_ & _ & _ & _ & _ & _ & _ & _ & Hok & _).
  destruct (Hok Hw) as [_ Hd]. split; [exact Hd|].
  unfold size. rewrite Hd, length_app, peek_length. lia.
Qed.

(** The sector loop ends, and unless a write fails it appends 512 bytes
    for every sector from [k] on. *)
Lemma sects_loop_total P head track n :
  forall fuel k s,
    1 <= k -> k + Z.of_nat n = sectors s + 1 -> sectors s < 65535 ->
    (n < fuel)%nat ->
    let r := sects_loop P fuel (i16 k) head track s in
    fst r = Some (-1) \/
    (fst r = Some 0 /\ size (snd r) = size s + 512 * Z.of_nat n).
Proof.
  induction n as [|n IH]; intros fuel k s Hk Hn Hs Hfuel;
    (destruct fuel as [|fuel]; [lia|]); cbn [sects_loop];
    rewrite u16_i16, u16_small by lia.
  - destruct (Z.leb_spec k (sectors s)); [lia|]. right. cbn. split; [reflexivity|lia].
  - destruct (Z.leb_spec k (sectors s)); [|lia].
    unfold sect_body.
    destruct (read_sect_frame P head track (i16 k) s) as (G1 & D1 & _).
    pose proof (write_step P 512 (read_sect P head track (i16 k) s) ltac:(lia)) as W.
    pose proof (write_complete P 512 (read_sect P head track (i16 k) s) ltac:(lia)) as C.
    destruct (write P 512 (read_sect P head track (i16 k) s)) as [w s2].
    cbn [fst snd] in *. destruct W as (G2 & _ & _ & Hw).
    destruct (Z.eqb_spec w 512) as [->|Hne]; cbn [negb]; [|now left].
    destruct (C eq_refl) as [_ Hsz].
    assert (Hsec : sectors s2 = sectors s).
    { destruct G1 as (E1 & _), G2 as (E2 & _). congruence. }
    rewrite i16_succ.
    specialize (IH fuel (k + 1) s2 ltac:(lia) ltac:(lia) ltac:(lia) ltac:(lia)).
    cbv zeta in IH. destruct IH as [IH|[IH1 IH2]]; [now left|].
    right. split; [exact IH1|]. rewrite IH2, Hsz. unfold size. rewrite D1. lia.
Qed.

Lemma peek_poke l m : peek (List.length l) (poke l m) = l.
Proof.
  unfold peek, poke. apply nth_ext with (d := m O) (d' := m O).
  - now rewrite length_map, length_seq.
  - intros n Hn. rewrite length_map, length_seq in Hn.
    rewrite (nth_indep _ (m O) (nth O l (m O))) by now rewrite length_map, length_seq.
    rewrite (map_nth (fun i => nth i l (m i)) (seq 0 (List.length l)) O n).
    rewrite seq_nth by exact Hn. cbn [Nat.add]. now apply nth_indep.
Qed.

Lemma sector_bytes_length P drv track head sector :
  List.length (sector_bytes P drv track head sector) = 512%nat.
Proof. unfold sector_bytes. now rewrite length_map, length_seq. Qed.

Lemma read_data_length P drv track head sector nsects :
  0 <= nsects ->
  Z.of_nat (List.length (read_data P drv track head sector nsects)) = 512 * nsects.
Proof.
  intros Hn. unfold read_data.
  rewrite <- (Z2Nat.id nsects) at 2 by exact Hn.
  rewrite <- (length_seq (Z.to_nat nsects) 0) at 2.
  induction (seq 0 (Z.to_nat nsects)) as [|k l IH]; [reflexivity|].
  cbn [flat_map]. rewrite length_app, sector_bytes_length. cbn [List.length]. lia.
Qed.

(** A bulk copy that returns 0 has appended [trackbytes] bytes, the start
    of the track's data; when [trackbytes] is the size of the track, that is
    the whole track. *)
Lemma copy_track_ok P head track s :
  0 <= trackbytes s < 65535 ->
  fst (copy_track P head track s) = 0 ->
  size (snd (copy_track P head track s)) = size s + trackbytes s /\
  (0 <= sectors s -> trackbytes s = 512 * sectors s ->
   dst (snd (copy_track P head track s)) =
     dst s ++ read_data P (drive s) track head 1 (sectors s)).
Proof.
  intros Htb. unfold copy_track.
  pose proof (biosdisk_frame P 2 (drive s) head track 1 (sectors s) s) as B.
  assert (Hbuf : fst (biosdisk P 2 (drive s) head track 1 (sectors s) s) = 0 ->
                 buf (snd (biosdisk P 2 (drive s) head track 1 (sectors s) s)) =
                 poke (read_data P (drive s) track head 1 (sectors s)) (buf s)).
  { unfold biosdisk. cbn [Z.eqb Pos.eqb]. destruct (_ =? 0) eqn:E; cbn; [reflexivity|].
    intros H. apply Z.eqb_neq in E. contradiction. }
  destruct (biosdisk P 2 (drive s) head track 1 (sectors s) s) as [st s1].
  cbn [fst snd] in *. destruct B as (_ & _ & _ & _ & _ & _ & Htb1 & D1).
  destruct (Z.eqb_spec st 0) as [->|]; cbn [negb]; [|cbn; discriminate].
  pose proof (write_complete P (trackbytes s1) s1 ltac:(lia)) as C.
  pose proof (write_step P (trackbytes s1) s1 ltac:(lia)) as W.
  destruct (write P (trackbytes s1) s1) as [w s2]. cbn [fst snd] in *.
  destruct W as ((_ & _ & _ & _ & Htb2) & _).
  rewrite Htb2.
  destruct (negb (u16 w =? trackbytes s1)) eqn:E; cbn [fst snd]; [discriminate|].
  intros _. apply negb_false_iff, Z.eqb_eq in E.
  destruct (C E) as [Hd Hsz]. cbn [printf emit dst]. unfold size in *.
  cbn [printf emit dst]. rewrite D1, Htb1 in *.
  split; [exact Hsz|]. intros Hsec Hexact.
  rewrite Hd, Hbuf by reflexivity. f_equal.
  rewrite <- (peek_poke (read_data P (drive s) track head 1 (sectors s)) (buf s)) at 2.
  f_equal. apply Nat2Z.inj. rewrite read_data_length by exact Hsec. lia.
Qed.

(** When the read succeeds and the destination has room, the bulk copy
    returns 0. *)
Lemma copy_track_succeeds P head track s :
  0 <= trackbytes s < 65535 ->
  (forall hist, bios_status P hist 2 (drive s) head track 1 (sectors s) = 0) ->
  (forall hist, trackbytes s <= sink_room P hist) ->
  fst (copy_track P head track s) = 0.
Proof.
  intros Htb Hread Hroom. unfold copy_track.
  pose proof (biosdisk_frame P 2 (drive s) head track 1 (sectors s) s) as B.
  destruct (biosdisk P 2 (drive s) head track 1 (sectors s) s) as [st s1].
  cbn [fst snd] in *. destruct B as (Hst & _ & _ & _ & _ & _ & Htb1 & _).
  rewrite Hread in Hst. subst st. cbn [Z.eqb negb].
  pose proof (write_frame P (trackbytes s1) s1 ltac:(lia)) as W.
  destruct (write P (trackbytes s1) s1) as [w s2]. cbn [fst snd] in *.
  destruct W as (_ & _ & _ & _ & _ & Htb2 & _ & _ & _ & Hok).
  rewrite Htb2, Hok, Z.eqb_refl by (rewrite Htb1; apply Hroom). reflexivity.
Qed.

(** A bulk copy that returns 1 has written nothing. *)
Lemma copy_track_read_failed P head track s :
  0 <= trackbytes s < 65535 ->
  fst (copy_track P head track s) = 1 ->
  dst (snd (copy_track P head track s)) = dst s.
Proof.
  intros Htb. unfold copy_track.
  pose proof (biosdisk_frame P 2 (drive s) head track 1 (sectors s) s) as B.
  destruct (biosdisk P 2 (drive s) head track 1 (sectors s) s) as [st s1].
  cbn [fst snd] in *. destruct B as (_ & _ & _ & _ & _ & _ & _ & D1).
  destruct (negb (st =? 0)); [intros _; exact D1|].
  destruct (write P (trackbytes s1) s1) as [w s2].
  destruct (negb (u16 w =? trackbytes s2)); cbn; discriminate.
Qed.

(** One (cylinder, head) unit either stops on a failed write or appends
    [512 * sectors] bytes, whichever path it took; it never runs on. *)
Lemma copy_unit_size P fuel head track s :
  0 <= sectors s -> trackbytes s = 512 * sectors s -> trackbytes s < 65535 ->
  (Z.to_nat (sectors s) < fuel)%nat ->
  let r := copy_unit P fuel head track s in
  fst r = Some true \/
  (fst r = Some false /\ size (snd r) = size s + 512 * sectors s).
Proof.
  intros Hsec Hexact Htb Hfuel. unfold copy_unit.
  assert (Htb' : 0 <= trackbytes s < 65535) by lia.
  destruct (copy_track_trace P head track s Htb') as (G1 & evs & _ & Hcase).
  pose proof (copy_track_ok P head track s Htb') as Hok.
  pose proof (copy_track_read_failed P head track s Htb') as Hrf.
  destruct (copy_track P head track s) as [res s1]. cbn [fst snd] in *.
  destruct Hcase as [(Hr & _)|([Hr|Hr] & _)]; subst res;
    cbn [Z.eqb Z.ltb Z.compare fst snd].
  - now left.
  - right. split; [reflexivity|]. destruct (Hok eq_refl) as [Hsz _].
    unfold size in *. cbn [flog emit dst]. lia.
  - unfold copy_sects.
    destruct G1 as (E1 & _).
    pose proof (sects_loop_total P head track (Z.to_nat (sectors s)) fuel 1 s1
                  ltac:(lia) ltac:(lia) ltac:(lia) Hfuel) as L.
    cbv zeta in L. change (i16 1) with 1 in L.
    destruct (sects_loop P fuel 1 head track s1) as [[r|] s2];
      cbn [fst snd] in *.
    + destruct L as [L|[L L2]]; injection L as ->; cbn [Z.ltb Z.compare fst snd].
      * now left.
      * right. split; [reflexivity|]. rewrite L2. unfold size.
        rewrite (Hrf eq_refl). lia.
    + destruct L as [L|[L _]]; discriminate L.
Qed.

Lemma head_loop_size P fuel n :
  forall head track s,
    0 <= sectors s -> trackbytes s = 512 * sectors s -> trackbytes s < 65535 ->
    (Z.to_nat (sectors s) < fuel)%nat ->
    let r := head_loop P fuel n head track s in
    fst r = Some true \/
    (fst r = Some false /\ size (snd r) = size s + Z.of_nat n * (512 * sectors s)).
Proof.
  induction n as [|n IH]; intros head track s Hsec Hexact Htb Hfuel.
  - right. cbn. split; [reflexivity | lia].
  - cbn [head_loop].
    pose proof (copy_unit_size P fuel head track s Hsec Hexact Htb Hfuel) as U.
    pose proof (copy_unit_outcome P fuel head track s ltac:(lia)) as O.
    destruct (copy_unit P fuel head track s) as [[[|]|] s1]; cbn [fst snd] in *.
    + now left.
    + destruct U as [U|[_ U]]; [discriminate|].
      destruct O as ((E1 & _ & _ & _ & E5) & _). cbn [snd] in *.
      specialize (IH (head + 1) track s1).
      rewrite E1, E5 in IH. specialize (IH Hsec Hexact Htb Hfuel). cbv zeta in IH.
      destruct IH as [IH|[IH1 IH2]]; [now left|].
      right. split; [exact IH1|]. rewrite IH2, U. lia.
    + destruct U as [U|[U _]]; discriminate U.
Qed.

Lemma track_loop_size P fuel n :
  forall track s,
    0 <= sectors s -> trackbytes s = 512 * sectors s -> trackbytes s < 65535 ->
    (Z.to_nat (sectors s) < fuel)%nat ->
    let r := track_loop P fuel n track s in
    fst r = Some true \/
    (fst r = Some false /\
     size (snd r) = size s + Z.of_nat n * (Z.of_nat (Z.to_nat (heads s)) * (512 * sectors s))).
Proof.
  induction n as [|n IH]; intros track s Hsec Hexact Htb Hfuel.
  - right. cbn. split; [reflexivity | lia].
  - cbn [track_loop].
    pose proof (head_loop_size P fuel (Z.to_nat (heads s)) 0 track s
                  Hsec Hexact Htb Hfuel) as U.
    pose proof (head_loop_outcome P fuel (Z.to_nat (heads s)) 0 track s ltac:(lia)) as O.
    destruct (head_loop P fuel (Z.to_nat (heads s)) 0 track s) as [[[|]|] s1];
      cbn [fst snd] in *.
    + now left.
    + destruct U as [U|[_ U]]; [discriminate|].
      destruct O as ((E1 & _ & E3 & _ & E5) & _). cbn [snd] in *.
      specialize (IH (track + 1) s1).
      rewrite E1, E3, E5 in IH. specialize (IH Hsec Hexact Htb Hfuel). cbv zeta in IH.
      destruct IH as [IH|[IH1 IH2]]; [now left|].
      right. split; [exact IH1|]. rewrite IH2, U. lia.
    + destruct U as [U|[U _]]; discriminate U.
Qed.

(** Below 128 sectors per track: a copy loop that is not stopped by a
    failed write ends, and has appended cylinders x heads x sectors x 512
    bytes, whatever mix of bulk copies and fallbacks it went through. *)
Lemma image_loop_size P fuel s :
  0 <= tracks s -> 0 <= heads s -> 0 <= sectors s < 128 ->
  trackbytes s = u16 (512 * sectors s) ->
  (Z.to_nat (sectors s) < fuel)%nat ->
  let r := image_loop P fuel s in
  fst r = Some true \/
  (fst r = Some false /\
   size (snd r) = size s + tracks s * heads s * sectors s * 512).
Proof.
  intros Ht Hh Hs Htb Hfuel. unfold image_loop.
  rewrite u16_small in Htb by lia.
  destruct (track_loop_size P fuel (Z.to_nat (tracks s)) 0 s
              ltac:(lia) Htb ltac:(lia) Hfuel) as [L|[L1 L2]]; [now left|].
  right. split; [exact L1|]. rewrite L2, !Z2Nat.id by lia. lia.
Qed.

(** ** The image when every bulk copy succeeds *)

Section BulkOnly.

Variable P : platform.
Variable fuel : nat.
Variable drv nsects tb : Z.

Hypothesis nsects_pos : 0 <= nsects.
Hypothesis tb_exact : tb = 512 * nsects.
Hypothesis tb_fits : tb < 65535.
Hypothesis reads_ok :
  forall hist head track, bios_status P hist 2 drv head track 1 nsects = 0.
Hypothesis room_ok : forall hist, tb <= sink_room P hist.

Lemma set_up_same s s' :
  set_up_for drv nsects tb s -> same_globals s s' -> set_up_for drv nsects tb s'.
Proof. unfold set_up_for, same_globals. intuition congruence. Qed.

Lemma copy_unit_bulk head track s :
  set_up_for drv nsects tb s ->
  let r := copy_unit P fuel head track s in
  fst r = Some false /\ same_globals s (snd r) /\
  dst (snd r) = dst s ++ read_data P drv track head 1 nsects.
Proof.
  intros (Hd & Hs & Ht).
  assert (Htb : 0 <= trackbytes s < 65535) by lia.
  pose proof (copy_track_succeeds P head track s Htb) as Hsucc.
  rewrite Hd, Hs, Ht in Hsucc. specialize (Hsucc (fun h => reads_ok h head track) room_ok).
  destruct (copy_track_ok P head track s Htb Hsucc) as [_ Hdst].
  rewrite Hd, Hs, Ht in Hdst. specialize (Hdst nsects_pos tb_exact).
  destruct (copy_track_trace P head track s Htb) as (G & _).
  unfold copy_unit. destruct (copy_track P head track s) as [res s1].
  cbn [fst snd] in *. subst res. cbn. repeat split; try apply G. exact Hdst.
Qed.

Lemma head_loop_bulk n :
  forall head track s,
    set_up_for drv nsects tb s ->
    let r := head_loop P fuel n head track s in
    fst r = Some false /\ same_globals s (snd r) /\
    dst (snd r) =
      dst s ++ flat_map (fun h => read_data P drv track h 1 nsects) (count_from head n).
Proof.
  induction n as [|n IH]; intros head track s Hs.
  - cbn. rewrite app_nil_r. repeat split.
  - cbn [head_loop count_from flat_map].
    destruct (copy_unit_bulk head track s Hs) as (U1 & U2 & U3).
    destruct (copy_unit P fuel head track s) as [r s1]. cbn [fst snd] in *.
    subst r.
    destruct (IH (head + 1) track s1 (set_up_same _ _ Hs U2)) as (I1 & I2 & I3).
    split; [exact I1|]. split; [eapply same_globals_trans; eauto|].
    rewrite I3, U3, <- app_assoc. reflexivity.
Qed.

Lemma track_loop_bulk n :
  forall track s,
    set_up_for drv nsects tb s ->
    let r := track_loop P fuel n track s in
    fst r = Some false /\ same_globals s (snd r) /\
    dst (snd r) =
      dst s ++
      flat_map (fun t => flat_map (fun h => read_data P drv t h 1 nsects)
                                  (upto (heads s)))
               (count_from track n).
Proof.
  induction n as [|n IH]; intros track s Hs.
  - cbn. rewrite app_nil_r. repeat split.
  - cbn [track_loop count_from flat_map].
    destruct (head_loop_bulk (Z.to_nat (heads s)) 0 track s Hs) as (U1 & U2 & U3).
    destruct (head_loop P fuel (Z.to_nat (heads s)) 0 track s) as [r s1].
    cbn [fst snd] in *. subst r.
    destruct (IH (track + 1) s1 (set_up_same _ _ Hs U2)) as (I1 & I2 & I3).
    split; [exact I1|]. split; [eapply same_globals_trans; eauto|].
    assert (Hh : heads s1 = heads s) by apply U2.
    rewrite I3, U3, Hh, <- app_assoc. reflexivity.
Qed.

End BulkOnly.

Lemma count_from_length a n : List.length (count_from a n) = n.
Proof. revert a. induction n; intros a; cbn; [reflexivity | now rewrite IHn]. Qed.

Lemma flat_map_const_length {A} (f : A -> list byte) (c : Z) (l : list A) :
  (forall x, Z.of_nat (List.length (f x)) = c) ->
  Z.of_nat (List.length (flat_map f l)) = Z.of_nat (List.length l) * c.
Proof.
  intros Hf. induction l as [|x l IH]; [reflexivity|].
  cbn [flat_map List.length]. rewrite length_app, Nat2Z.inj_add, IH, Hf. lia.
Qed.

Lemma image_length P drv ntracks nheads nsects :
  0 <= ntracks -> 0 <= nheads -> 0 <= nsects ->
  Z.of_nat (List.length (image P drv ntracks nheads nsects))
  = ntracks * nheads * nsects * 512.
Proof.
  intros Ht Hh Hs. unfold image.
  rewrite (flat_map_const_length _ (nheads * (512 * nsects))).
  - unfold upto. rewrite count_from_length, Z2Nat.id by lia. lia.
  - intros t. rewrite (flat_map_const_length _ (512 * nsects)).
    + unfold upto. rewrite count_from_length, Z2Nat.id by lia. lia.
    + intros h. now apply read_data_length.
Qed.

(** C4 below 128 sectors per track: for a geometry with all fields
    positive, when every bulk read succeeds and the destination takes every
    track, the copy loop ends without going to [fail], and what it has
    appended is the image of the disk, sector by sector in (cylinder, head,
    sector) order, cylinders x heads x sectors x 512 bytes. *)
Lemma bulk_image_exact P fuel s :
  0 < tracks s -> 0 < heads s -> 0 < sectors s < 128 ->
  trackbytes s = u16 (512 * sectors s) ->
  (forall hist head track,
     bios_status P hist 2 (drive s) head track 1 (sectors s) = 0) ->
  (forall hist, trackbytes s <= sink_room P hist) ->
  let r := image_loop P fuel s in
  fst r = Some false /\
  dst (snd r) = dst s ++ image P (drive s) (tracks s) (heads s) (sectors s) /\
  size (snd r) = size s + tracks s * heads s * sectors s * 512.
Proof.
  intros Ht Hh Hs Htb Hreads Hroom. rewrite u16_small in Htb by lia.
  unfold image_loop.
  destruct (track_loop_bulk P fuel (drive s) (sectors s) (trackbytes s)
              ltac:(lia) Htb ltac:(lia) Hreads Hroom (Z.to_nat (tracks s)) 0 s)
    as (R1 & _ & R3); [repeat split|].
  assert (R3' : dst (snd (track_loop P fuel (Z.to_nat (tracks s)) 0 s)) =
                dst s ++ image P (drive s) (tracks s) (heads s) (sectors s))
    by exact R3.
  cbv zeta. split; [exact R1|]. split; [exact R3'|].
  unfold size. rewrite R3', length_app, Nat2Z.inj_add, image_length by lia. lia.
Qed.

(** ** A completed session *)

Lemma run_copy_frame P fuel fn s :
  0 <= trackbytes s < 65535 ->
  same_globals s (snd (run_copy P fuel fn s)).
Proof.
  intros Htb. unfold run_copy.
  destruct (open_ok P fn); cbn [negb]; [|repeat split].
  unfold image_loop.
  set (s0 := flog _ (flog _ (emit EvFopenLog (emit _ s)))).
  assert (G0 : same_globals s s0) by repeat split.
  destruct (track_loop_outcome P fuel (Z.to_nat (tracks s0)) 0 s0 Htb) as (G & _).
  destruct (track_loop P fuel (Z.to_nat (tracks s0)) 0 s0) as [[[|]|] s1];
    cbn [fst snd] in *;
    (eapply same_globals_trans; [exact G0|]);
    (eapply same_globals_trans; [exact G|]); repeat split.
Qed.

Lemma run_copy_size P fuel fn s :
  0 <= tracks s -> 0 <= heads s -> 0 <= sectors s < 128 ->
  trackbytes s = u16 (512 * sectors s) ->
  (Z.to_nat (sectors s) < fuel)%nat ->
  fst (run_copy P fuel fn s) = Some 0 ->
  size (snd (run_copy P fuel fn s)) = size s + tracks s * heads s * sectors s * 512.
Proof.
  intros Ht Hh Hs Htb Hfuel. unfold run_copy.
  destruct (open_ok P fn); cbn [negb]; [|discriminate].
  set (s0 := flog _ (flog _ (emit EvFopenLog (emit _ s)))).
  pose proof (image_loop_size P fuel s0 Ht Hh Hs Htb Hfuel) as L. cbv zeta in L.
  destruct (image_loop P fuel s0) as [[[|]|] s1]; cbn [fst snd] in *;
    try discriminate.
  intros _. destruct L as [L|[_ L]]; [discriminate|]. exact L.
Qed.

Lemma hddinfo_geometry_nonneg P s :
  0 <= tracks s -> 0 <= heads s -> 0 <= sectors s ->
  let s' := snd (hddinfo P s) in
  0 <= tracks s' /\ 0 <= heads s' /\ 0 <= sectors s'.
Proof.
  intros Ht Hh Hs.
  destruct (Z.eq_dec (u8 (r_ah (int13h_8 P (drive s)))) 0) as [H|H].
  - rewrite (hddinfo_success P s H). cbn [snd tracks heads sectors].
    pose proof (u16_range (cyls (hdp P s))). pose proof (u8_range (tbl_heads (hdp P s))).
    pose proof (int13_sectors_range (int13h_8 P (drive s))).
    unfold hdp_cyls, hdp_heads. lia.
  - rewrite (hddinfo_failure P s H). cbn. lia.
Qed.

Lemma apply_overrides_nonneg opts s :
  0 <= tracks s -> 0 <= heads s -> 0 <= sectors s ->
  let s' := apply_overrides opts s in
  0 <= tracks s' /\ 0 <= heads s' /\ 0 <= sectors s'.
Proof.
  intros Ht Hh Hs. unfold apply_overrides.
  pose proof (u16_range (opt_tracks opts)). pose proof (u16_range (opt_heads opts)).
  pose proof (u16_range (opt_sectors opts)).
  destruct (ss opts =? 0), (hs opts =? 0), (ts opts =? 0); cbn; lia.
Qed.

(** C10 below 128 sectors per track: a session that runs to completion
    (status 0) leaves a file of cylinders x heads x sectors x 512 bytes,
    whichever units went through the fallback. *)
Lemma completed_session_size P fuel argv :
  let r := main P fuel argv in
  fst r = Some 0 ->
  sectors (snd r) < 128 ->
  (Z.to_nat (sectors (snd r)) < fuel)%nat ->
  size (snd r) = tracks (snd r) * heads (snd r) * sectors (snd r) * 512.
Proof.
  unfold main. destruct (parse_args argv opts0 None) as [[opts [fn|]]|];
    cbn [fst snd]; try discriminate.
  unfold main_body.
  pose proof (hddinfo_geometry_nonneg P (before_hddinfo P opts)) as N1.
  destruct (hddinfo_no_io P (before_hddinfo P opts)) as (_ & D1 & _).
  { unfold before_hddinfo. destruct (ds opts =? 0); repeat constructor. }
  destruct (hddinfo P (before_hddinfo P opts)) as [rhi s1]. cbn [fst snd] in *.
  assert (N1' : 0 <= tracks s1 /\ 0 <= heads s1 /\ 0 <= sectors s1).
  { apply N1; unfold before_hddinfo; destruct (ds opts =? 0); cbn; lia. }
  assert (D1' : dst s1 = []).
  { rewrite D1. unfold before_hddinfo. destruct (ds opts =? 0); reflexivity. }
  clear N1 D1. destruct N1' as (Nt & Nh & Ns).
  destruct (rhi <? 0); [discriminate|].
  destruct (apply_overrides_nonneg opts s1 Nt Nh Ns) as (Gt & Gh & Gs).
  destruct (apply_overrides_frame opts s1) as (_ & Gd & _).
  set (g := apply_overrides opts s1) in *.
  destruct (_ || _); [discriminate|].
  cbn [set_trackbytes emit trackbytes].
  destruct (malloc_ok P _); cbn [negb]; [|discriminate].
  destruct (negb (getch_key P =? 13)); [discriminate|].
  match goal with |- context [run_copy P fuel fn ?s] => set (s0 := s) end.
  assert (G0 : tracks s0 = tracks g /\ heads s0 = heads g /\ sectors s0 = sectors g /\
               trackbytes s0 = u16 (512 * sectors g) /\ dst s0 = dst g).
  { subst s0. destruct (_ || _), (rhi =? 0); repeat split. }
  destruct G0 as (E1 & E2 & E3 & E4 & E5).
  pose proof (run_copy_frame P fuel fn s0) as F.
  rewrite E4 in F. specialize (F (trackbytes_range _)).
  destruct F as (F1 & F2 & F3 & _).
  intros Hr Hsec Hfuel. rewrite F1, F2, F3 in *.
  rewrite (run_copy_size P fuel fn s0); try lia.
  - unfold size. rewrite E5, Gd, D1'. cbn. lia.
  - rewrite E4, E3. reflexivity.
  - exact Hr.
Qed.

(** A run on a readable disk, geometry 2 x 2 x 3 from the command line:
    the file is the image of the disk. *)
Example image_2_2_3 :
  let P := P_query_fails in
  let r := main P 100 argv_2_2_3 in
  dst (snd r) = image P 128 2 2 3.
Proof. vm_compute. reflexivity. Qed.

(** The sector loop of copy_sects ends for every sector count but 65535. *)
Lemma copy_sects_ends P fuel head track s :
  0 <= sectors s < 65535 -> (Z.to_nat (sectors s) < fuel)%nat ->
  fst (copy_sects P fuel head track s) <> None.
Proof.
  intros Hs Hfuel. unfold copy_sects.
  pose proof (sects_loop_total P head track (Z.to_nat (sectors s)) fuel 1 s
                ltac:(lia) ltac:(lia) ltac:(lia) Hfuel) as L.
  cbv zeta in L. change (i16 1) with 1 in L.
  destruct L as [L|[L _]]; rewrite L; discriminate.
Qed.

(** The two reconciliation examples of the specification. *)
Example reconcile_100_2_17 :
  let r := hddinfo P_100_99 (at_start P_100_99) in
  (fst r, tracks (snd r), heads (snd r), sectors (snd r)) = (0, 100, 2, 17).
Proof. vm_compute. reflexivity. Qed.

Example reconcile_heads_differ :
  let r := hddinfo P_heads_differ (at_start P_heads_differ) in
  (fst r, tracks (snd r), heads (snd r), sectors (snd r)) = (1, 50, 4, 17) /\
  trace (snd r) = [EvStderr (MWarnHeads 4 2); EvInt13_8 128 0].
Proof. vm_compute. split; reflexivity. Qed.

(** Override precedence: sectors=63 on the command line replaces the
    detected 17. *)
Example override_sectors_63 :
  sectors (apply_overrides (mkOpts 0 0 63 0 0 0 1 0)
             (snd (hddinfo P_100_99 (at_start P_100_99)))) = 63.
Proof. vm_compute. reflexivity. Qed.
